(** * Prometheus receiver configuration: validation and decoding adapters

    A shallow embedding of [receiver/prometheusreceiver/config.go] and the
    properties of its validation ([Config.Validate], [TargetAllocator.Validate],
    [PromConfig.Validate], [checkFile], [checkTLSConfig]) and of its decoding
    adapters ([PromConfig.Unmarshal], [PromHTTPSDConfig.Unmarshal],
    [unmarshalYAML]).

    Go strings are byte strings ([string]); a nilable pointer is an [option];
    the map handed over by the configuration loader is a [gmap string any];
    a method with a pointer receiver is a computation in the monad [Go T],
    which threads the receiver object and the outside world (the filesystem
    and the record of the library calls that were made). *)

From Stdlib Require Import ZArith Ascii String List Bool Sorted.
From stdpp Require Import base option list gmap strings fin_maps.

Local Open Scope string_scope.
Local Open Scope list_scope.
Local Open Scope stdpp_scope.

Set Warnings "-register-all,-clear-no-such-hyp".

(** ** Go strings *)

Module strings.

(** [strings.HasPrefix]. *)
Fixpoint HasPrefix (s prefix : string) : bool :=
  match prefix, s with
  | EmptyString, _ => true
  | String p prefix', String c s' => if Ascii.eqb c p then HasPrefix s' prefix' else false
  | String _ _, EmptyString => false
  end.

(** [strings.Contains]: [substr] occurs somewhere in [s]. *)
Fixpoint Contains (s substr : string) : bool :=
  HasPrefix s substr ||
  match s with
  | EmptyString => false
  | String _ s' => Contains s' substr
  end.

(** [strings.HasSuffix]. *)
Definition HasSuffix (s suffix : string) : bool :=
  let n := String.length s in
  let k := String.length suffix in
  (k <=? n)%nat && String.eqb (String.substring (n - k) k s) suffix.

(** [strings.Index]: the byte offset of the first [substr], or -1. *)
Fixpoint Index_from (s substr : string) (i : Z) : Z :=
  if HasPrefix s substr then i
  else match s with
       | EmptyString => (-1)%Z
       | String _ s' => Index_from s' substr (i + 1)
       end.
Definition Index (s substr : string) : Z := Index_from s substr 0.

(** [strings.LastIndex]: the byte offset of the last [substr], or -1. *)
Fixpoint LastIndex_from (s substr : string) (i : Z) : Z :=
  match s with
  | EmptyString => if HasPrefix s substr then i else (-1)%Z
  | String _ s' =>
      let later := LastIndex_from s' substr (i + 1) in
      if (0 <=? later)%Z then later
      else if HasPrefix s substr then i else (-1)%Z
  end.
Definition LastIndex (s substr : string) : Z := LastIndex_from s substr 0.

(** [strings.Count] for a separator of one byte. *)
Fixpoint CountByte (s : string) (c : ascii) : Z :=
  match s with
  | EmptyString => 0%Z
  | String b s' => ((if Ascii.eqb b c then 1 else 0) + CountByte s' c)%Z
  end.

(** The slices [s[i:]] and [s[:i]], for [0 <= i <= len(s)]. *)
Definition from (i : Z) (s : string) : string :=
  String.substring (Z.to_nat i) (String.length s - Z.to_nat i) s.
Definition upto (i : Z) (s : string) : string :=
  String.substring 0 (Z.to_nat i) s.

(** [strings.Cut]: the text before and after the first [sep], and whether
    it was found. *)
Definition Cut (s sep : string) : string * string * bool :=
  let i := Index s sep in
  if (0 <=? i)%Z then (upto i s, from (i + Z.of_nat (String.length sep)) s, true)
  else (s, "", false).

(** [strings.Join]. *)
Fixpoint Join (elems : list string) (sep : string) : string :=
  match elems with
  | [] => ""
  | [e] => e
  | e :: rest => e +:+ sep +:+ Join rest sep
  end.

End strings.

Module sort.

Fixpoint insert (x : string) (l : list string) : list string :=
  match l with
  | [] => [x]
  | y :: l' => if String.leb x y then x :: l else y :: insert x l'
  end.

(** [sort.Strings]: the slice in increasing byte-wise order.  The order is
    total, so the sorted slice does not depend on the sorting algorithm. *)
Definition Strings (x : list string) : list string := foldr insert [] x.

End sort.

(** ** Errors

    A Go [error] is an interface value; [nil] is [None : option error].  The
    constructors are the concrete error types that reach this package. *)

(** [syscall.Errno], as far as [os.Stat] reports it. *)
Inductive Errno : Type :=
  | ENOENT | EACCES | ENOTDIR | ELOOP | ENAMETOOLONG | EINVAL | EIO.

Definition Errno_Error (e : Errno) : string :=
  match e with
  | ENOENT => "no such file or directory"
  | EACCES => "permission denied"
  | ENOTDIR => "not a directory"
  | ELOOP => "too many levels of symbolic links"
  | ENAMETOOLONG => "file name too long"
  | EINVAL => "invalid argument"
  | EIO => "input/output error"
  end.

Inductive error : Type :=
  | errorString (s : string)                    (* errors.New, fmt.Errorf without %w *)
  | wrapError (msg : string) (err : error)      (* fmt.Errorf with %w *)
  | PathError (Op Path : string) (Err : Errno). (* *fs.PathError, from package os *)

(** The [Error() string] method. *)
Definition Error (e : error) : string :=
  match e with
  | errorString s => s
  | wrapError msg _ => msg
  | PathError op path err => op +:+ " " +:+ path +:+ ": " +:+ Errno_Error err
  end.

(** [errors.Unwrap]. *)
Definition Unwrap (e : error) : option error :=
  match e with
  | wrapError _ err => Some err
  | _ => None
  end.

Module errors.
Definition New (text : string) : error := errorString text.
End errors.

(** ** The Go library the package calls

    These functions belong to the Go standard library, not to this
    repository; the package only depends on their results. *)
Class GoLib : Type := {
(** [strconv.Quote], which formats the operand of the verb [%q] *)
  strconv_Quote : string -> string;
(** [url.ParseRequestURI]; only its error result is used by the package *)
  url_ParseRequestURI : string -> option error;
}.

(** ** Package fmt: the verbs that the package uses *)
Module fmt.

Inductive operand : Type :=
  | Str (s : string)   (* a string operand, for %s and %q *)
  | Err (e : error).   (* an error operand, for %w *)

(** [fmt.Sprintf], for the verbs of this package: [%s] and [%q] with a
    string, [%w] with an error (it prints like [%v], the text of the error).
    A verb that finds no operand prints [%!verb(MISSING)], as in Go; the other
    uses of verbs are not needed here, and the model marks them [%!verb(?)]. *)
Fixpoint Sprintf `{GoLib} (format : string) (a : list operand) : string :=
  match format with
  | EmptyString => ""
  | String "%" (String verb rest) =>
      match verb, a with
      | "s"%char, Str s :: a' => s +:+ Sprintf rest a'
      | "q"%char, Str s :: a' => strconv_Quote s +:+ Sprintf rest a'
      | "w"%char, Err e :: a' => Error e +:+ Sprintf rest a'
      | _, [] => "%!" +:+ String verb "(MISSING)" +:+ Sprintf rest []
      | _, _ :: a' => "%!" +:+ String verb "(?)" +:+ Sprintf rest a'
      end
  | String c rest => String c (Sprintf rest a)
  end.

Fixpoint wrapped (a : list operand) : option error :=
  match a with
  | [] => None
  | Err e :: _ => Some e
  | Str _ :: a' => wrapped a'
  end.

(** [fmt.Errorf]: with a [%w] operand the result wraps it (an error operand
    is always the operand of a [%w] here). *)
Definition Errorf `{GoLib} (format : string) (a : list operand) : error :=
  match wrapped a with
  | Some e => wrapError (Sprintf format a) e
  | None => errorString (Sprintf format a)
  end.

End fmt.

(** ** The outside world and the monad of methods *)

(** Go's [any], as far as a decoded configuration document holds it; a
    [map[string]any] is a [gmap string any]. *)
Inductive any : Type :=
  | any_nil
  | any_bool (b : bool)
  | any_int (n : Z)
  | any_string (s : string)
  | any_slice (l : list any)
  | any_map (m : gmap string any).

(** A call of a library function that the properties below keep track of. *)
Inductive Call : Type :=
  | os_Stat_call (name : string)
  | yaml_Marshal_call (input : gmap string any)
  | yaml_UnmarshalStrict_call (data : string).

(** The filesystem answers [os.Stat]: [None] when the file can be
    stat-ed, [Some errno] when it cannot.  [calls] records the calls made so
    far, oldest first. *)
Record World : Type := mkWorld {
  fs : string -> option Errno;
  calls : list Call;
}.

(** [p == nil] for a pointer [p]. *)
Definition is_nil {A} (p : option A) : bool :=
  match p with None => true | Some _ => false end.

(** A computation with receiver object of type [T]. *)
Definition Go (T A : Type) : Type := T -> World -> A * T * World.

Definition ret {T A} (a : A) : Go T A := fun this w => (a, this, w).

Definition bind {T A B} (m : Go T A) (k : A -> Go T B) : Go T B :=
  fun this w => let '(a, this', w') := m this w in k a this' w'.

Declare Scope go_scope.
Delimit Scope go_scope with go.
Notation "x <- m ;; k" := (bind m (fun x => k))
  (at level 100, m at next level, right associativity) : go_scope.
(** [if err := m; err != nil { return err }], then [k]. *)
Notation "'check' m ;; k" :=
  (bind m (fun err => match err with Some e => ret (Some e) | None => k end))
  (at level 100, m at next level, right associativity) : go_scope.
Local Open Scope go_scope.

(** Reading the receiver, [f] being a field or an expression over fields. *)
Definition field {T A} (f : T -> A) : Go T A := fun this w => (f this, this, w).

(** Assigning through the receiver pointer. *)
Definition assign {T} (this' : T) : Go T unit := fun _ w => (tt, this', w).

Definition record_call {T} (c : Call) : Go T unit :=
  fun this w => (tt, this, mkWorld (fs w) (calls w ++ [c])).

(** A [for _, x := range l] loop whose body may [return err]: the first
    error leaves the loop and the function. *)
Fixpoint for_range {T A} (l : list A) (body : A -> Go T (option error))
  : Go T (option error) :=
  match l with
  | [] => ret None
  | x :: l' =>
      err <- body x ;;
      match err with
      | Some e => ret (Some e)
      | None => for_range l' body
      end
  end.

Module os.
(** [os.Stat]; the [FileInfo] result is not used by the package. *)
Definition Stat {T} (name : string) : Go T (option error) :=
  _ <- record_call (os_Stat_call name) ;;
  fun this w => (PathError "stat" name <$> fs w name, this, w).
End os.

(** ** The configuration schema of the libraries

    The structs of [prometheus/common/config], [prometheus/discovery] and
    [prometheus/config], with the fields this package reads.  Each struct
    is a record [t] in a module of its own, so that fields keep their Go
    names. *)

Module commonconfig.

Module TLSConfig.
Record t : Type := mk {
  CAFile : string;
  CertFile : string;
  KeyFile : string;
}.
Definition zero : t := mk "" "" "".
End TLSConfig.

Module Authorization.
Record t : Type := mk {
  Type_ : string;
  Credentials : string;
  CredentialsFile : string;
}.
End Authorization.

Module HTTPClientConfig.
Record t : Type := mk {
  Authorization : option Authorization.t;   (* *Authorization *)
  TLSConfig : TLSConfig.t;
}.
Definition zero : t := mk None TLSConfig.zero.
End HTTPClientConfig.

End commonconfig.
Import commonconfig.

Module kubernetes.
Module SDConfig.
Record t : Type := mk {
  APIServer : string;
  Role : string;
  HTTPClientConfig : HTTPClientConfig.t;
}.
End SDConfig.
End kubernetes.

Module promHTTP.
Module SDConfig.
Record t : Type := mk {
  HTTPClientConfig : HTTPClientConfig.t;
  RefreshInterval : Z;
  URL : string;
}.
Definition zero : t := mk HTTPClientConfig.zero 0 "".
End SDConfig.
End promHTTP.

Module discovery.
(** The interface [discovery.Config] with the mechanisms that implement
    it: the type switch of the package tells [*kubernetes.SDConfig] from
    all the others. *)
Inductive Config : Type :=
  | kubernetes_SDConfig (c : kubernetes.SDConfig.t)
  | http_SDConfig (c : promHTTP.SDConfig.t)
  | file_SDConfig (Files : list string)
  | StaticConfig (targets : list string)
  | other_SDConfig (name : string) (client : HTTPClientConfig.t).
End discovery.

Module promconfig.

Module ScrapeConfig.
Record t : Type := mk {
  JobName : string;
  HTTPClientConfig : HTTPClientConfig.t;
  ServiceDiscoveryConfigs : list discovery.Config;
}.
End ScrapeConfig.

Module RemoteWriteConfig.
Record t : Type := mk { URL : string; Name : string }.
End RemoteWriteConfig.

Module RemoteReadConfig.
Record t : Type := mk { URL : string; Name : string }.
End RemoteReadConfig.

Module RelabelConfig.
Record t : Type := mk { SourceLabels : list string; TargetLabel : string }.
End RelabelConfig.

Module AlertmanagerConfig.
Record t : Type := mk { Scheme : string; PathPrefix : string }.
End AlertmanagerConfig.

Module AlertingConfig.
Record t : Type := mk {
  AlertRelabelConfigs : list RelabelConfig.t;
  AlertmanagerConfigs : list AlertmanagerConfig.t;
}.
Definition zero : t := mk [] [].
End AlertingConfig.

Module Config.
Record t : Type := mk {
  AlertingConfig : AlertingConfig.t;
  RuleFiles : list string;
  ScrapeConfigs : list ScrapeConfig.t;      (* []*ScrapeConfig, no nil entry *)
  RemoteWriteConfigs : list RemoteWriteConfig.t;
  RemoteReadConfigs : list RemoteReadConfig.t;
}.
Definition zero : t := mk AlertingConfig.zero [] [] [] [].
End Config.

End promconfig.

Module confighttp.
Module ClientConfig.
Record t : Type := mk { Endpoint : string }.
End ClientConfig.
End confighttp.

Module confmap.
(** [confmap.Conf], the configuration tree handed over by the loader. *)
Record Conf : Type := mk { ToStringMap : gmap string any }.
End confmap.

(** ** Package gopkg.in/yaml.v2 *)
Module yaml.

(** What [yaml.Marshal] returns for a map: the document and the error. *)
Class Encoder : Type := encode : gmap string any -> string * option error.

(** What [yaml.UnmarshalStrict] does to an object of type [T]: the error
    and the object afterwards (an object can be written before a late
    error). *)
Class Decoder (T : Type) : Type := decode : string -> T -> option error * T.

Definition Marshal `{Encoder} {T} (input : gmap string any)
  : Go T (string * option error) :=
  _ <- record_call (yaml_Marshal_call input) ;;
  ret (encode input).

Definition UnmarshalStrict `{Decoder T} (data : string) : Go T (option error) :=
  _ <- record_call (yaml_UnmarshalStrict_call data) ;;
  out <- field id ;;
  let '(err, out') := decode data out in
  _ <- assign out' ;;
  ret err.

End yaml.

(** * The package: receiver/prometheusreceiver/config.go *)

(** [unmarshalYAML(in, out)], [out] being the receiver of the caller. *)
Definition unmarshalYAML `{GoLib} `{yaml.Encoder} `{yaml.Decoder T}
    (input : gmap string any) : Go T (option error) :=
  r <- yaml.Marshal input ;;
  let '(yamlOut, err) := r in
  match err with
  | Some err =>
      ret (Some (fmt.Errorf "prometheus receiver: failed to marshal config to yaml: %w"
                   [fmt.Err err]))
  | None =>
      err <- yaml.UnmarshalStrict yamlOut ;;
      match err with
      | Some err =>
          ret (Some (fmt.Errorf
                 "prometheus receiver: failed to unmarshal yaml to prometheus config object: %w"
                 [fmt.Err err]))
      | None => ret None
      end
  end.

Definition checkFile {T} (fn : string) : Go T (option error) :=
  (* Nothing set, nothing to error on. *)
  if String.eqb fn "" then ret None
  else os.Stat fn.

Definition checkTLSConfig `{GoLib} {T} (tlsConfig : TLSConfig.t) : Go T (option error) :=
  err <- checkFile (TLSConfig.CertFile tlsConfig) ;;
  match err with
  | Some err =>
      ret (Some (fmt.Errorf "error checking client cert file %q: %w"
                   [fmt.Str (TLSConfig.CertFile tlsConfig); fmt.Err err]))
  | None =>
      err <- checkFile (TLSConfig.KeyFile tlsConfig) ;;
      match err with
      | Some err =>
          ret (Some (fmt.Errorf "error checking client key file %q: %w"
                       [fmt.Str (TLSConfig.KeyFile tlsConfig); fmt.Err err]))
      | None => ret None
      end
  end.

(** [PromHTTPSDConfig] redeclares [promHTTP.SDConfig]. *)
Module PromHTTPSDConfig.
Definition t : Type := promHTTP.SDConfig.t.

Definition Unmarshal `{GoLib} `{yaml.Encoder} `{yaml.Decoder t}
    (componentParser : confmap.Conf) : Go t (option error) :=
  let cfgMap := confmap.ToStringMap componentParser in
  if (size cfgMap =? 0)%nat then ret None
  else
    (* we have to set it as else marshaling will fail *)
    let cfgMap := <["url" := any_string "http://placeholder"]> cfgMap in
    unmarshalYAML cfgMap.
End PromHTTPSDConfig.

Module TargetAllocator.
Record t : Type := mk {
  ClientConfig : confighttp.ClientConfig.t;     (* squashed *)
  Interval : Z;
  CollectorID : string;
  HTTPSDConfig : option PromHTTPSDConfig.t;
}.

Definition Endpoint (cfg : t) : string :=
  confighttp.ClientConfig.Endpoint (ClientConfig cfg).

Definition Validate `{GoLib} : Go t (option error) :=
  cfg <- field id ;;
  (* ensure valid endpoint *)
  match url_ParseRequestURI (Endpoint cfg) with
  | Some _ =>
      ret (Some (fmt.Errorf "TargetAllocator endpoint is not valid: %s"
                   [fmt.Str (Endpoint cfg)]))
  | None =>
      (* ensure valid collectorID without variables *)
      if String.eqb (CollectorID cfg) "" || strings.Contains (CollectorID cfg) "${"
      then ret (Some (fmt.Errorf "CollectorID is not a valid ID" []))
      else ret None
  end.
End TargetAllocator.

(** The separator [\n\t] of the feature list. *)
Definition nl_tab : string := String (ascii_of_nat 10) (String (ascii_of_nat 9) "").

(** [PromConfig] redeclares [promconfig.Config]. *)
Module PromConfig.
Import promconfig.
Definition t : Type := promconfig.Config.t.

Definition Unmarshal `{GoLib} `{yaml.Encoder} `{yaml.Decoder t}
    (componentParser : confmap.Conf) : Go t (option error) :=
  let cfgMap := confmap.ToStringMap componentParser in
  if (size cfgMap =? 0)%nat then ret None
  else unmarshalYAML cfgMap.

(** The body of the loop over [sc.ServiceDiscoveryConfigs]. *)
Definition checkDiscovery `{GoLib} (c : discovery.Config) : Go t (option error) :=
  match c with
  | discovery.kubernetes_SDConfig c =>
      check checkTLSConfig
              (HTTPClientConfig.TLSConfig (kubernetes.SDConfig.HTTPClientConfig c)) ;;
      ret None
  | _ => ret None
  end.

(** The body of the loop over [cfg.ScrapeConfigs]. *)
Definition checkScrapeConfig `{GoLib} (sc : ScrapeConfig.t) : Go t (option error) :=
  check match HTTPClientConfig.Authorization (ScrapeConfig.HTTPClientConfig sc) with
        | Some authorization =>
            err <- checkFile (Authorization.CredentialsFile authorization) ;;
            match err with
            | Some err =>
                ret (Some (fmt.Errorf
                       "error checking authorization credentials file %q: %w"
                       [fmt.Str (Authorization.CredentialsFile authorization);
                        fmt.Err err]))
            | None => ret None
            end
        | None => ret None
        end ;;
  check checkTLSConfig (HTTPClientConfig.TLSConfig (ScrapeConfig.HTTPClientConfig sc)) ;;
  for_range (ScrapeConfig.ServiceDiscoveryConfigs sc) checkDiscovery.

Definition Validate `{GoLib} : Go t (option error) :=
  cfg <- field id ;;
  (* Reject features that Prometheus supports but that the receiver
     doesn't support *)
  let unsupportedFeatures : list string := [] in
  let unsupportedFeatures :=
    if negb (length (Config.RemoteWriteConfigs cfg) =? 0)%nat
    then unsupportedFeatures ++ ["remote_write"] else unsupportedFeatures in
  let unsupportedFeatures :=
    if negb (length (Config.RemoteReadConfigs cfg) =? 0)%nat
    then unsupportedFeatures ++ ["remote_read"] else unsupportedFeatures in
  let unsupportedFeatures :=
    if negb (length (Config.RuleFiles cfg) =? 0)%nat
    then unsupportedFeatures ++ ["rule_files"] else unsupportedFeatures in
  let unsupportedFeatures :=
    if negb (length (AlertingConfig.AlertRelabelConfigs (Config.AlertingConfig cfg)) =? 0)%nat
    then unsupportedFeatures ++ ["alert_config.relabel_configs"]
    else unsupportedFeatures in
  let unsupportedFeatures :=
    if negb (length (AlertingConfig.AlertmanagerConfigs (Config.AlertingConfig cfg)) =? 0)%nat
    then unsupportedFeatures ++ ["alert_config.alertmanagers"]
    else unsupportedFeatures in
  if negb (length unsupportedFeatures =? 0)%nat then
    (* Sort the values for deterministic error messages. *)
    let unsupportedFeatures := sort.Strings unsupportedFeatures in
    ret (Some (fmt.Errorf ("unsupported features:" +:+ nl_tab +:+ "%s")
                 [fmt.Str (strings.Join unsupportedFeatures nl_tab)]))
  else
    for_range (Config.ScrapeConfigs cfg) checkScrapeConfig.
End PromConfig.

(** [Config] defines configuration for Prometheus receiver. *)
Module Config.
Record t : Type := mk {
  PrometheusConfig : option PromConfig.t;       (* *PromConfig *)
  TrimMetricSuffixes : bool;
  UseStartTimeMetric : bool;
  StartTimeMetricRegex : string;
  ReportExtraScrapeMetrics : bool;
  TargetAllocator : option TargetAllocator.t;   (* *TargetAllocator *)
  EnableProtobufNegotiation : bool;
}.

(** [cfg.PrometheusConfig == nil || len(cfg.PrometheusConfig.ScrapeConfigs) == 0] *)
Definition noScrapeConfigs (cfg : t) : bool :=
  match PrometheusConfig cfg with
  | None => true
  | Some prom => (length (promconfig.Config.ScrapeConfigs prom) =? 0)%nat
  end.

(** Validate checks the receiver configuration is valid. *)
Definition Validate : Go t (option error) :=
  cfg <- field id ;;
  if noScrapeConfigs cfg && is_nil (TargetAllocator cfg)
  then ret (Some (errors.New "no Prometheus scrape_configs or target_allocator set"))
  else ret None.
End Config.

(** * The Go library functions, as the Go distribution defines them

    The properties below hold for every [GoLib]; the worked examples use
    this one. *)

Definition byte_in (c : ascii) (lo hi : ascii) : bool :=
  (nat_of_ascii lo <=? nat_of_ascii c)%nat && (nat_of_ascii c <=? nat_of_ascii hi)%nat.

Definition one_of (c : ascii) (set : string) : bool :=
  existsb (Ascii.eqb c) (list_ascii_of_string set).

Definition dquote : ascii := ascii_of_nat 34.

Module strconv.

Definition hex (n : nat) : ascii :=
  match String.get n "0123456789abcdef" with Some c => c | None => "0"%char end.

(** How [Quote] writes one byte.  Printable ASCII stands for itself, the
    quote and the backslash get a backslash, control bytes their escape.
    Bytes from 0x80 on are written as they are, which is what Go does with
    the printable runes of a UTF-8 text. *)
Definition quote_byte (c : ascii) : string :=
  let n := nat_of_ascii c in
  if Ascii.eqb c dquote || Ascii.eqb c "\"%char then String "\"%char (String c "")
  else if byte_in c " "%char "~"%char || (128 <=? n)%nat then String c ""
  else match n with
       | 7 => "\a" | 8 => "\b" | 12 => "\f" | 10 => "\n"
       | 13 => "\r" | 9 => "\t" | 11 => "\v"
       | _ => "\x" +:+ String (hex (n / 16)) (String (hex (n mod 16)) "")
       end.

Fixpoint quote_bytes (s : string) : string :=
  match s with
  | EmptyString => ""
  | String c s' => quote_byte c +:+ quote_bytes s'
  end.

(** [strconv.Quote]. *)
Definition Quote (s : string) : string :=
  String dquote (quote_bytes s +:+ String dquote "").

End strconv.

(** Package net/url: [ParseRequestURI], that is [parse(rawURL, true)], as far
    as its error result goes (the fields of the [*URL] are not computed). *)
Module url.

Inductive encoding : Type := encodePath | encodeHost | encodeZone | encodeUserPassword.

Definition EscapeError (s : string) : error :=
  errorString ("invalid URL escape " +:+ strconv.Quote s).
Definition InvalidHostError (s : string) : error :=
  errorString ("invalid character " +:+ strconv.Quote s +:+ " in host name").

Definition ishex (c : ascii) : bool :=
  byte_in c "0" "9" || byte_in c "a" "f" || byte_in c "A" "F".

Definition unhex (c : ascii) : nat :=
  if byte_in c "0" "9" then nat_of_ascii c - nat_of_ascii "0"
  else if byte_in c "a" "f" then nat_of_ascii c - nat_of_ascii "a" + 10
  else if byte_in c "A" "F" then nat_of_ascii c - nat_of_ascii "A" + 10
  else 0.

Definition alnum (c : ascii) : bool :=
  byte_in c "a" "z" || byte_in c "A" "Z" || byte_in c "0" "9".

(** [shouldEscape(c, encodeHost)]. *)
Definition shouldEscapeHost (c : ascii) : bool :=
  if alnum c then false
  else if one_of c "!$&'()*+,;=:[]<>" || Ascii.eqb c dquote then false
  else if one_of c "-_.~" then false
  else true.

Definition stringContainsCTLByte (s : string) : bool :=
  existsb (fun b => (nat_of_ascii b <? 32)%nat || (nat_of_ascii b =? 127)%nat)
          (list_ascii_of_string s).

(** The error result of [unescape(s, mode)]. *)
Fixpoint unescape (s : string) (mode : encoding) : option error :=
  match s with
  | EmptyString => None
  | String "%" rest =>
      match rest with
      | String a (String b rest') =>
          if negb (ishex a && ishex b) then Some (EscapeError (strings.upto 3 s))
          else
            let esc := String "%" (String a (String b "")) in
            let v := ascii_of_nat (unhex a * 16 + unhex b) in
            match mode with
            | encodeHost =>
                if (unhex a <? 8)%nat && negb (String.eqb esc "%25")
                then Some (EscapeError esc) else unescape rest' mode
            | encodeZone =>
                if negb (String.eqb esc "%25") && negb (Ascii.eqb v " ")
                   && shouldEscapeHost v
                then Some (EscapeError esc) else unescape rest' mode
            | _ => unescape rest' mode
            end
      | _ => Some (EscapeError (strings.upto 3 s))
      end
  | String "+" rest => unescape rest mode
  | String c rest =>
      match mode with
      | encodeHost | encodeZone =>
          if (nat_of_ascii c <? 128)%nat && shouldEscapeHost c
          then Some (InvalidHostError (String c "")) else unescape rest mode
      | _ => unescape rest mode
      end
  end.

Fixpoint getScheme_from (rawURL rest : string) (i : Z) : string * string * option error :=
  match rest with
  | EmptyString => ("", rawURL, None)
  | String c rest' =>
      if byte_in c "a" "z" || byte_in c "A" "Z" then getScheme_from rawURL rest' (i + 1)
      else if byte_in c "0" "9" || one_of c "+-." then
        if (i =? 0)%Z then ("", rawURL, None) else getScheme_from rawURL rest' (i + 1)
      else if Ascii.eqb c ":" then
        if (i =? 0)%Z then ("", "", Some (errors.New "missing protocol scheme"))
        else (strings.upto i rawURL, strings.from (i + 1) rawURL, None)
      else
        (* an invalid character, so there is no valid scheme *)
        ("", rawURL, None)
  end.

Definition getScheme (rawURL : string) : string * string * option error :=
  getScheme_from rawURL rawURL 0.

Definition validOptionalPort (port : string) : bool :=
  match port with
  | EmptyString => true
  | String c digits =>
      Ascii.eqb c ":" && forallb (fun b => byte_in b "0" "9") (list_ascii_of_string digits)
  end.

Definition validUserinfo (s : string) : bool :=
  forallb (fun r => alnum r || one_of r "-._:~!$&'()*+,;=%@") (list_ascii_of_string s).

Definition parseHost (host : string) : option error :=
  let generic := unescape host encodeHost in
  if strings.HasPrefix host "[" then
    let i := strings.LastIndex host "]" in
    if (i <? 0)%Z then Some (errors.New "missing ']' in host")
    else
      let colonPort := strings.from (i + 1) host in
      if negb (validOptionalPort colonPort)
      then Some (errors.New ("invalid port " +:+ strconv.Quote colonPort +:+ " after host"))
      else
        let zone := strings.Index (strings.upto i host) "%25" in
        if (0 <=? zone)%Z then
          match unescape (strings.upto zone host) encodeHost with
          | Some err => Some err
          | None =>
              match unescape (strings.from zone (strings.upto i host)) encodeZone with
              | Some err => Some err
              | None => unescape (strings.from i host) encodeHost
              end
          end
        else generic
  else
    let i := strings.LastIndex host ":" in
    if negb (i =? -1)%Z && negb (validOptionalPort (strings.from i host))
    then Some (errors.New ("invalid port " +:+ strconv.Quote (strings.from i host)
                           +:+ " after host"))
    else generic.

Definition parseAuthority (authority : string) : option error :=
  let i := strings.LastIndex authority "@" in
  let hostErr :=
    if (i <? 0)%Z then parseHost authority
    else parseHost (strings.from (i + 1) authority) in
  match hostErr with
  | Some err => Some err
  | None =>
      if (i <? 0)%Z then None
      else
        let userinfo := strings.upto i authority in
        if negb (validUserinfo userinfo) then Some (errors.New "net/url: invalid userinfo")
        else if negb (strings.Contains userinfo ":") then unescape userinfo encodeUserPassword
        else
          let '(username, password, _) := strings.Cut userinfo ":" in
          match unescape username encodeUserPassword with
          | Some err => Some err
          | None => unescape password encodeUserPassword
          end
  end.

(** [parse(rawURL, viaRequest)] with [viaRequest = true]. *)
Definition parse (rawURL : string) : option error :=
  if stringContainsCTLByte rawURL
  then Some (errors.New "net/url: invalid control character in URL")
  else if String.eqb rawURL "" then Some (errors.New "empty url")
  else if String.eqb rawURL "*" then None
  else
    let '(scheme, rest, err) := getScheme rawURL in
    match err with
    | Some err => Some err
    | None =>
        let rest :=
          if strings.HasSuffix rest "?" && (strings.CountByte rest "?" =? 1)%Z
          then strings.upto (Z.of_nat (String.length rest) - 1) rest
          else (strings.Cut rest "?").1.1 in
        if negb (strings.HasPrefix rest "/") then
          if negb (String.eqb scheme "") then None   (* a rootless path is opaque *)
          else Some (errors.New "invalid URI for request")
        else
          let '(authorityErr, rest) :=
            if negb (String.eqb scheme "") && strings.HasPrefix rest "//" then
              let authority := strings.from 2 rest in
              let i := strings.Index authority "/" in
              let '(authority, rest) :=
                if (0 <=? i)%Z then (strings.upto i authority, strings.from i authority)
                else (authority, "") in
              (parseAuthority authority, rest)
            else (None, rest) in
          match authorityErr with
          | Some err => Some err
          | None => unescape rest encodePath     (* setPath *)
          end
    end.

(** [url.ParseRequestURI]: the error, wrapped in a [*url.Error]. *)
Definition ParseRequestURI (rawURL : string) : option error :=
  match parse rawURL with
  | Some err =>
      Some (wrapError ("parse " +:+ strconv.Quote rawURL +:+ ": " +:+ Error err) err)
  | None => None
  end.

End url.

Definition go_lib : GoLib :=
  {| strconv_Quote := strconv.Quote; url_ParseRequestURI := url.ParseRequestURI |}.

(** * Vocabulary of the properties *)

(** The three components of a run. *)
Definition result {T A} (r : A * T * World) : A := r.1.1.
Definition receiver {T A} (r : A * T * World) : T := r.1.2.
Definition world {T A} (r : A * T * World) : World := r.2.

(** The world after some more calls. *)
Definition after (w : World) (cs : list Call) : World := mkWorld (fs w) (calls w ++ cs).

(** A target allocator with the given endpoint and collector identifier. *)
Definition allocator (endpoint collector_id : string) : TargetAllocator.t :=
  TargetAllocator.mk (confighttp.ClientConfig.mk endpoint) 0 collector_id None.

(** The feature that [label] names is in use in [cfg]. *)
Definition violated (cfg : PromConfig.t) (label : string) : Prop :=
  let alerting := promconfig.Config.AlertingConfig cfg in
  (label = "remote_write" ∧ promconfig.Config.RemoteWriteConfigs cfg ≠ []) ∨
  (label = "remote_read" ∧ promconfig.Config.RemoteReadConfigs cfg ≠ []) ∨
  (label = "rule_files" ∧ promconfig.Config.RuleFiles cfg ≠ []) ∨
  (label = "alert_config.relabel_configs" ∧
   promconfig.AlertingConfig.AlertRelabelConfigs alerting ≠ []) ∨
  (label = "alert_config.alertmanagers" ∧
   promconfig.AlertingConfig.AlertmanagerConfigs alerting ≠ []).

(** Strictly increasing in the byte-wise lexicographic order. *)
Definition increasing (labels : list string) : Prop :=
  StronglySorted (λ a b, String.ltb a b = true) labels.

(** The text of the unsupported-feature error for a list of labels. *)
Definition unsupported_text (labels : list string) : string :=
  "unsupported features:" +:+ nl_tab +:+ strings.Join labels nl_tab.

(** The labels that the five tests of [PromConfig.Validate] collect, in the
    order of the tests. *)
Definition collected (rw rr rf relabel am : bool) : list string :=
  (if rw then ["remote_write"] else []) ++
  (if rr then ["remote_read"] else []) ++
  (if rf then ["rule_files"] else []) ++
  (if relabel then ["alert_config.relabel_configs"] else []) ++
  (if am then ["alert_config.alertmanagers"] else []).

(** [len(l) != 0]. *)
Definition in_use {A} (l : list A) : bool := negb (length l =? 0)%nat.

(** A scrape configuration that uses rule files and remote read. *)
Definition rules_and_remote_read : PromConfig.t :=
  promconfig.Config.mk promconfig.AlertingConfig.zero ["alerts.yml"] [] []
    [promconfig.RemoteReadConfig.mk "http://remote/read" "r"].

(** The filesystem without any file. *)
Definition empty_fs : World := mkWorld (λ _, Some ENOENT) [].

(** ** The file checks of a configuration, in the words of the specification *)

(** The configuration field that names a file. *)
Inductive FileField : Type := credentials_file | cert_file | key_file.

Definition heading (f : FileField) : string :=
  match f with
  | credentials_file => "error checking authorization credentials file "
  | cert_file => "error checking client cert file "
  | key_file => "error checking client key file "
  end.

(** The error for the file [path] of field [f] that [os.Stat] refuses with
    [errno]: the heading of the field, the quoted path, and the error of
    [os.Stat], which it wraps. *)
Definition missing_file `{GoLib} (f : FileField) (path : string) (errno : Errno) : error :=
  let cause := PathError "stat" path errno in
  wrapError (heading f +:+ strconv_Quote path +:+ ": " +:+ Error cause) cause.

Definition FileCheck : Type := FileField * string.

(** Checking a list of files in order, up to the first that fails: an empty
    path is passed over, any other path is stat-ed once.  The result is the
    list of calls made and the error, if any. *)
Fixpoint run_checks `{GoLib} (files : string -> option Errno) (checks : list FileCheck)
  : list Call * option error :=
  match checks with
  | [] => ([], None)
  | (f, path) :: rest =>
      if String.eqb path "" then run_checks files rest
      else match files path with
           | Some errno => ([os_Stat_call path], Some (missing_file f path errno))
           | None =>
               let '(cs, r) := run_checks files rest in (os_Stat_call path :: cs, r)
           end
  end.

Definition tls_checks (tls : TLSConfig.t) : list FileCheck :=
  [(cert_file, TLSConfig.CertFile tls); (key_file, TLSConfig.KeyFile tls)].

Definition discovery_checks (c : discovery.Config) : list FileCheck :=
  match c with
  | discovery.kubernetes_SDConfig c =>
      tls_checks (HTTPClientConfig.TLSConfig (kubernetes.SDConfig.HTTPClientConfig c))
  | _ => []
  end.

(** The checks of one scrape job: the credentials file of its authorization
    block if it has one, its certificate, its key, then the certificate and
    the key of each Kubernetes discovery entry. *)
Definition job_checks (sc : promconfig.ScrapeConfig.t) : list FileCheck :=
  let client := promconfig.ScrapeConfig.HTTPClientConfig sc in
  match HTTPClientConfig.Authorization client with
  | Some authorization => [(credentials_file, Authorization.CredentialsFile authorization)]
  | None => []
  end ++
  tls_checks (HTTPClientConfig.TLSConfig client) ++
  flat_map discovery_checks (promconfig.ScrapeConfig.ServiceDiscoveryConfigs sc).

Definition file_checks (cfg : PromConfig.t) : list FileCheck :=
  flat_map job_checks (promconfig.Config.ScrapeConfigs cfg).

(** The check passes: nothing is configured, or the file can be stat-ed. *)
Definition passes (files : string -> option Errno) (c : FileCheck) : Prop :=
  c.2 = "" ∨ files c.2 = None.

(** The calls of a list of checks that all pass: one [os.Stat] for each
    path that is not empty. *)
Fixpoint stat_calls (checks : list FileCheck) : list Call :=
  match checks with
  | [] => []
  | (_, path) :: rest =>
      if String.eqb path "" then stat_calls rest else os_Stat_call path :: stat_calls rest
  end.

(** A computation that does what a list of file checks says and leaves the
    receiver as it is. *)
Definition runs_as `{GoLib} {T} (m : Go T (option error)) (checks : list FileCheck) : Prop :=
  ∀ (this : T) (w : World),
    m this w = ((run_checks (fs w) checks).2, this, after w (run_checks (fs w) checks).1).

(** The labels that [PromConfig.Validate] collects for [cfg]. *)
Definition features (cfg : PromConfig.t) : list string :=
  let alerting := promconfig.Config.AlertingConfig cfg in
  collected (in_use (promconfig.Config.RemoteWriteConfigs cfg))
            (in_use (promconfig.Config.RemoteReadConfigs cfg))
            (in_use (promconfig.Config.RuleFiles cfg))
            (in_use (promconfig.AlertingConfig.AlertRelabelConfigs alerting))
            (in_use (promconfig.AlertingConfig.AlertmanagerConfigs alerting)).

(** What validation of [cfg] comes to on the filesystem [files]: the calls
    made and the error.  The feature test comes first, the file checks run
    only when it finds nothing. *)
Definition validation `{GoLib} (files : string -> option Errno) (cfg : PromConfig.t)
  : list Call * option error :=
  if in_use (features cfg)
  then ([], Some (errorString (unsupported_text (sort.Strings (features cfg)))))
  else run_checks files (file_checks cfg).

Definition is_kubernetes (c : discovery.Config) : bool :=
  match c with discovery.kubernetes_SDConfig _ => true | _ => false end.

(** [cfg] without its discovery entries that are not of the Kubernetes kind. *)
Definition only_kubernetes (cfg : PromConfig.t) : PromConfig.t :=
  let keep (sc : promconfig.ScrapeConfig.t) :=
    promconfig.ScrapeConfig.mk
      (promconfig.ScrapeConfig.JobName sc)
      (promconfig.ScrapeConfig.HTTPClientConfig sc)
      (List.filter is_kubernetes (promconfig.ScrapeConfig.ServiceDiscoveryConfigs sc)) in
  promconfig.Config.mk
    (promconfig.Config.AlertingConfig cfg) (promconfig.Config.RuleFiles cfg)
    (map keep (promconfig.Config.ScrapeConfigs cfg))
    (promconfig.Config.RemoteWriteConfigs cfg) (promconfig.Config.RemoteReadConfigs cfg).

(** [cfg] with every job renamed by [f]. *)
Definition rename_jobs (f : string -> string) (cfg : PromConfig.t) : PromConfig.t :=
  let rename (sc : promconfig.ScrapeConfig.t) :=
    promconfig.ScrapeConfig.mk
      (f (promconfig.ScrapeConfig.JobName sc))
      (promconfig.ScrapeConfig.HTTPClientConfig sc)
      (promconfig.ScrapeConfig.ServiceDiscoveryConfigs sc) in
  promconfig.Config.mk
    (promconfig.Config.AlertingConfig cfg) (promconfig.Config.RuleFiles cfg)
    (map rename (promconfig.Config.ScrapeConfigs cfg))
    (promconfig.Config.RemoteWriteConfigs cfg) (promconfig.Config.RemoteReadConfigs cfg).

(** The filesystem that holds exactly the files [present]. *)
Definition files_of (present : list string) : string -> option Errno :=
  λ path, if bool_decide (path ∈ present) then None else Some ENOENT.

(** Two jobs with files: job [a] names a credentials file and a certificate,
    job [b] a key, and a Kubernetes discovery entry with a certificate. *)
Definition two_jobs : PromConfig.t :=
  let client (credentials cert key : string) :=
    HTTPClientConfig.mk
      (if String.eqb credentials "" then None
       else Some (Authorization.mk "Bearer" "" credentials))
      (TLSConfig.mk "" cert key) in
  promconfig.Config.mk promconfig.AlertingConfig.zero [] 
    [promconfig.ScrapeConfig.mk "a" (client "/secrets/a-token" "/certs/a.crt" "")
       [discovery.file_SDConfig ["/targets/a.json"]];
     promconfig.ScrapeConfig.mk "b" (client "" "" "/certs/b.key")
       [discovery.kubernetes_SDConfig
          (kubernetes.SDConfig.mk "https://kube" "pod" (client "" "/certs/kube.crt" ""))]]
    [] [].

(** One job, found through HTTP discovery; the discovery entry has a client
    certificate of its own. *)
Definition http_discovery_job : PromConfig.t :=
  promconfig.Config.mk promconfig.AlertingConfig.zero []
    [promconfig.ScrapeConfig.mk "web" HTTPClientConfig.zero
       [discovery.http_SDConfig
          (promHTTP.SDConfig.mk
             (HTTPClientConfig.mk None (TLSConfig.mk "" "/certs/sd.crt" "/certs/sd.key"))
             60 "http://sd.example/targets")]]
    [] [].

(** One job called [name] that reads its bearer token from a file. *)
Definition token_job (name : string) : PromConfig.t :=
  promconfig.Config.mk promconfig.AlertingConfig.zero []
    [promconfig.ScrapeConfig.mk name
       (HTTPClientConfig.mk (Some (Authorization.mk "Bearer" "" "/secrets/token"))
          TLSConfig.zero)
       []]
    [] [].

(** Running a method a second time, on the receiver and in the world that
    the first run leaves: no write to the receiver, no write to the
    filesystem, and the same result again. *)
Definition idempotent {T A} (m : Go T A) : Prop :=
  ∀ (this : T) (w : World),
    let first := m this w in
    let second := m (receiver first) (world first) in
    receiver first = this ∧ fs (world first) = fs w ∧
    result second = result first ∧
    receiver second = this ∧ fs (world second) = fs w.

(** ** The schema of HTTP discovery, as far as the URL goes *)

(** The error of [promHTTP.SDConfig.UnmarshalYAML] for a document that
    leaves the URL empty. *)
Definition URL_missing : error := errorString "URL is missing".

(** What is assumed of a YAML encoder and a decoder of the HTTP discovery
    schema: when a map is encoded and the document decoded, a successful
    decoding has put the string under the key [url] into the field URL, and
    the decoding fails with [URL_missing] only if that string is empty. *)
Definition url_schema (E : yaml.Encoder) (D : yaml.Decoder PromHTTPSDConfig.t) : Prop :=
  ∀ (m : gmap string any) (u data : string) (c : PromHTTPSDConfig.t),
    m !! "url" = Some (any_string u) →
    yaml.encode m = (data, None) →
    match yaml.decode data c with
    | (None, c') => promHTTP.SDConfig.URL c' = u
    | (Some e, _) => e = URL_missing → u = ""
    end.

(** An encoder and a decoder for worked examples: a document is the line
    [url: ...] for the string under the key [url], or it is empty.  The
    decoder starts from the default configuration, as the library does. *)
Definition url_line (m : gmap string any) : string :=
  match m !! "url" with
  | Some (any_string u) => "url: " +:+ u
  | _ => ""
  end.

Definition url_line_encoder : yaml.Encoder := λ m, (url_line m, None).

Definition DefaultSDConfig : promHTTP.SDConfig.t :=
  promHTTP.SDConfig.mk HTTPClientConfig.zero 60000000000 "".

Definition url_line_decoder : yaml.Decoder PromHTTPSDConfig.t :=
  λ data _,
    let c :=
      match data with
      | String "u" (String "r" (String "l" (String ":" (String " " u)))) =>
          promHTTP.SDConfig.mk (promHTTP.SDConfig.HTTPClientConfig DefaultSDConfig)
            (promHTTP.SDConfig.RefreshInterval DefaultSDConfig) u
      | _ => DefaultSDConfig
      end in
    if String.eqb (promHTTP.SDConfig.URL c) "" then (Some URL_missing, c) else (None, c).

(** A decoder for a struct without fields: only the empty document is fine. *)
Definition no_field_decoder {T} : yaml.Decoder T :=
  λ data c,
    if String.eqb data "" then (None, c)
    else (Some (errorString "yaml: unmarshal errors"), c).

(** A discovery block that sets the refresh interval and no URL. *)
Definition refresh_only : confmap.Conf :=
  confmap.mk {[ "refresh_interval" := any_string "30s" ]}.

(** The placeholder of [PromHTTPSDConfig.Unmarshal]. *)
Definition placeholder : string := "http://placeholder".

(** The error of [unmarshalYAML] when the decoder misses the URL. *)
Definition URL_required `{GoLib} : error :=
  fmt.Errorf "prometheus receiver: failed to unmarshal yaml to prometheus config object: %w"
    [fmt.Err URL_missing].

(** ** Vocabulary of the further properties of config.go *)

(** The headings of the two stages of [unmarshalYAML]. *)
Definition marshal_heading : string :=
  "prometheus receiver: failed to marshal config to yaml: ".
Definition unmarshal_heading : string :=
  "prometheus receiver: failed to unmarshal yaml to prometheus config object: ".

(** [cfg] with the scrape jobs [scs] in place of its own. *)
Definition with_jobs (cfg : PromConfig.t) (scs : list promconfig.ScrapeConfig.t)
  : PromConfig.t :=
  promconfig.Config.mk
    (promconfig.Config.AlertingConfig cfg) (promconfig.Config.RuleFiles cfg) scs
    (promconfig.Config.RemoteWriteConfigs cfg) (promconfig.Config.RemoteReadConfigs cfg).

(** A discovery block with a URL of the user and a refresh interval. *)
Definition refresh_and_url : confmap.Conf :=
  confmap.mk (<["url" := any_string "http://user.example/sd"]>
                {[ "refresh_interval" := any_string "30s" ]}).

(** The job of [token_job] under another name, with a CA file, another
    authorization type and inline credentials on top. *)
Definition token_job_with_ca : PromConfig.t :=
  promconfig.Config.mk promconfig.AlertingConfig.zero []
    [promconfig.ScrapeConfig.mk "other"
       (HTTPClientConfig.mk (Some (Authorization.mk "Token" "inline" "/secrets/token"))
          (TLSConfig.mk "/certs/ca.pem" "" ""))
       [discovery.StaticConfig ["localhost:9090"]]]
    [] [].

(** * Package metadata: the resource builder *)

(** ** Package pdata/pcommon *)
Module pcommon.

(** [pcommon.Value], with the kinds of value that matter here. *)
Inductive Value : Type :=
  | ValueEmpty
  | ValueStr (v : string)
  | ValueInt (v : Z)
  | ValueBool (v : bool).

(** A [pcommon.Resource] is a reference to a resource object: copies of it
    share the object.  [Resources] holds the attributes of the resource
    objects that exist. *)
Abbreviation Resource := nat.
Abbreviation Resources := (gmap nat (gmap string Value)).

(** [pcommon.NewResource()]: a new resource object, without attributes. *)
Definition NewResource (h : Resources) : Resource * Resources :=
  let r := fresh (dom h) in (r, <[r := ∅]> h).

(** [r.Attributes().PutStr(k, v)]: the attribute [k] of the object is set
    to the string [v], whether it was there or not.  A reference without an
    object is the zero [Resource], on which Go panics: [None]. *)
Definition Attributes_PutStr (r : Resource) (k v : string) (h : Resources)
  : option Resources :=
  attrs ← h !! r; Some (<[r := <[k := ValueStr v]> attrs]> h).

End pcommon.

(** The settings of the resource attributes.  Their declaration is generated
    into a file of the package that is not at hand; the builder reads the
    field [Enabled] of one setting for each of its six attributes. *)
Module ResourceAttributeConfig.
Record t : Type := mk { Enabled : bool }.
End ResourceAttributeConfig.

Module ResourceAttributesConfig.
Record t : Type := mk {
  VcenterClusterName : ResourceAttributeConfig.t;
  VcenterDatastoreName : ResourceAttributeConfig.t;
  VcenterHostName : ResourceAttributeConfig.t;
  VcenterResourcePoolName : ResourceAttributeConfig.t;
  VcenterVMID : ResourceAttributeConfig.t;
  VcenterVMName : ResourceAttributeConfig.t;
}.
End ResourceAttributesConfig.

(** [ResourceBuilder] is a helper struct to build resources predefined in
    metadata.yaml.  A method takes the builder and the resource objects and
    gives them back; [None] is a panic. *)
Module ResourceBuilder.
Import ResourceAttributeConfig ResourceAttributesConfig.

Record t : Type := mk {
  config : ResourceAttributesConfig.t;
  res : pcommon.Resource;
}.

(** SetVcenterClusterName sets provided value as "vcenter.cluster.name" attribute. *)
Definition SetVcenterClusterName (val : string) (rb : t) (h : pcommon.Resources)
  : option (t * pcommon.Resources) :=
  if Enabled (VcenterClusterName (config rb))
  then h' ← pcommon.Attributes_PutStr (res rb) "vcenter.cluster.name" val h; Some (rb, h')
  else Some (rb, h).

(** SetVcenterDatastoreName sets provided value as "vcenter.datastore.name" attribute. *)
Definition SetVcenterDatastoreName (val : string) (rb : t) (h : pcommon.Resources)
  : option (t * pcommon.Resources) :=
  if Enabled (VcenterDatastoreName (config rb))
  then h' ← pcommon.Attributes_PutStr (res rb) "vcenter.datastore.name" val h; Some (rb, h')
  else Some (rb, h).

(** SetVcenterHostName sets provided value as "vcenter.host.name" attribute. *)
Definition SetVcenterHostName (val : string) (rb : t) (h : pcommon.Resources)
  : option (t * pcommon.Resources) :=
  if Enabled (VcenterHostName (config rb))
  then h' ← pcommon.Attributes_PutStr (res rb) "vcenter.host.name" val h; Some (rb, h')
  else Some (rb, h).

(** SetVcenterResourcePoolName sets provided value as "vcenter.resource_pool.name" attribute. *)
Definition SetVcenterResourcePoolName (val : string) (rb : t) (h : pcommon.Resources)
  : option (t * pcommon.Resources) :=
  if Enabled (VcenterResourcePoolName (config rb))
  then h' ← pcommon.Attributes_PutStr (res rb) "vcenter.resource_pool.name" val h;
       Some (rb, h')
  else Some (rb, h).

(** SetVcenterVMID sets provided value as "vcenter.vm.id" attribute. *)
Definition SetVcenterVMID (val : string) (rb : t) (h : pcommon.Resources)
  : option (t * pcommon.Resources) :=
  if Enabled (VcenterVMID (config rb))
  then h' ← pcommon.Attributes_PutStr (res rb) "vcenter.vm.id" val h; Some (rb, h')
  else Some (rb, h).

(** SetVcenterVMName sets provided value as "vcenter.vm.name" attribute. *)
Definition SetVcenterVMName (val : string) (rb : t) (h : pcommon.Resources)
  : option (t * pcommon.Resources) :=
  if Enabled (VcenterVMName (config rb))
  then h' ← pcommon.Attributes_PutStr (res rb) "vcenter.vm.name" val h; Some (rb, h')
  else Some (rb, h).

(** Emit returns the built resource and resets the internal builder state. *)
Definition Emit (rb : t) (h : pcommon.Resources)
  : pcommon.Resource * t * pcommon.Resources :=
  let r := res rb in
  let '(new, h') := pcommon.NewResource h in
  (r, mk (config rb) new, h').

End ResourceBuilder.

(** NewResourceBuilder creates a new ResourceBuilder. *)
Definition NewResourceBuilder (rac : ResourceAttributesConfig.t) (h : pcommon.Resources)
  : ResourceBuilder.t * pcommon.Resources :=
  let '(new, h') := pcommon.NewResource h in
  (ResourceBuilder.mk rac new, h').

(** ** Vocabulary of the properties of the resource builder *)

(** The six attributes of the builder. *)
Inductive Attribute : Type :=
  | cluster_name | datastore_name | host_name | resource_pool_name | vm_id | vm_name.

#[global] Instance Attribute_eq_dec : EqDecision Attribute.
Proof. solve_decision. Defined.

Definition attribute_key (a : Attribute) : string :=
  match a with
  | cluster_name => "vcenter.cluster.name"
  | datastore_name => "vcenter.datastore.name"
  | host_name => "vcenter.host.name"
  | resource_pool_name => "vcenter.resource_pool.name"
  | vm_id => "vcenter.vm.id"
  | vm_name => "vcenter.vm.name"
  end.

Definition attribute_enabled (rac : ResourceAttributesConfig.t) (a : Attribute) : bool :=
  ResourceAttributeConfig.Enabled
    match a with
    | cluster_name => ResourceAttributesConfig.VcenterClusterName rac
    | datastore_name => ResourceAttributesConfig.VcenterDatastoreName rac
    | host_name => ResourceAttributesConfig.VcenterHostName rac
    | resource_pool_name => ResourceAttributesConfig.VcenterResourcePoolName rac
    | vm_id => ResourceAttributesConfig.VcenterVMID rac
    | vm_name => ResourceAttributesConfig.VcenterVMName rac
    end.

(** The setter of an attribute. *)
Definition set_attribute (a : Attribute)
  : string → ResourceBuilder.t → pcommon.Resources
    → option (ResourceBuilder.t * pcommon.Resources) :=
  match a with
  | cluster_name => ResourceBuilder.SetVcenterClusterName
  | datastore_name => ResourceBuilder.SetVcenterDatastoreName
  | host_name => ResourceBuilder.SetVcenterHostName
  | resource_pool_name => ResourceBuilder.SetVcenterResourcePoolName
  | vm_id => ResourceBuilder.SetVcenterVMID
  | vm_name => ResourceBuilder.SetVcenterVMName
  end.

(** A call of a method of the builder. *)
Inductive Operation : Type :=
  | set_op (a : Attribute) (val : string)
  | emit_op.

(** A call, with the resources that it returns. *)
Definition step (op : Operation) (rb : ResourceBuilder.t) (h : pcommon.Resources)
  : option (list pcommon.Resource * ResourceBuilder.t * pcommon.Resources) :=
  match op with
  | set_op a val => '(rb', h') ← set_attribute a val rb h; Some ([], rb', h')
  | emit_op => let '(r, rb', h') := ResourceBuilder.Emit rb h in Some ([r], rb', h')
  end.

(** A sequence of calls, with the resources returned, in order. *)
Fixpoint run (ops : list Operation) (rb : ResourceBuilder.t) (h : pcommon.Resources)
  : option (list pcommon.Resource * ResourceBuilder.t * pcommon.Resources) :=
  match ops with
  | [] => Some ([], rb, h)
  | op :: ops =>
      '(emitted1, rb1, h1) ← step op rb h;
      '(emitted2, rb2, h2) ← run ops rb1 h1;
      Some (emitted1 ++ emitted2, rb2, h2)
  end.

(** The values given to the attribute [a] by a sequence of calls of setters. *)
Definition values_of (a : Attribute) (sets : list (Attribute * string)) : list string :=
  (filter (λ s, s.1 = a) sets).*2.

(** The attributes are all attributes of the builder that are enabled, with
    strings for values. *)
Definition built_by (rac : ResourceAttributesConfig.t) (attrs : gmap string pcommon.Value)
  : Prop :=
  ∀ k v, attrs !! k = Some v →
    ∃ a s, k = attribute_key a ∧ attribute_enabled rac a = true ∧ v = pcommon.ValueStr s.

(** What a sequence of calls does to a builder that has its resource
    object: where the builder and the resources end up ([rb'], [h']) and
    the resources returned ([emitted]), seen from where they started. *)
Record evolves (rb : ResourceBuilder.t) (h : pcommon.Resources)
    (emitted : list pcommon.Resource) (rb' : ResourceBuilder.t) (h' : pcommon.Resources)
  : Prop := {
  evolves_config : ResourceBuilder.config rb' = ResourceBuilder.config rb;
  evolves_current : is_Some (h' !! ResourceBuilder.res rb');
  evolves_frame : ∀ r, r ≠ ResourceBuilder.res rb → r ∈ dom h → h' !! r = h !! r;
  evolves_emitted : ∀ r, r ∈ emitted →
    (r = ResourceBuilder.res rb ∨ r ∉ dom h) ∧ r ∈ dom h' ∧ r ≠ ResourceBuilder.res rb';
  evolves_NoDup : NoDup emitted;
  evolves_dom : dom h ⊆ dom h';
  evolves_res : ResourceBuilder.res rb' = ResourceBuilder.res rb ∨
                ResourceBuilder.res rb' ∉ dom h;
  evolves_built : ∀ attrs0,
    h !! ResourceBuilder.res rb = Some attrs0 →
    built_by (ResourceBuilder.config rb) attrs0 →
    ∀ r, r ∈ ResourceBuilder.res rb' :: emitted →
      ∃ attrs, h' !! r = Some attrs ∧ built_by (ResourceBuilder.config rb) attrs;
}.

(** Settings with every attribute enabled but the name of the host. *)
Definition all_but_host : ResourceAttributesConfig.t :=
  let on := ResourceAttributeConfig.mk true in
  ResourceAttributesConfig.mk on on (ResourceAttributeConfig.mk false) on on on.

(** * Properties *)

(** Runs of the validation methods, computed once and for all. *)

Lemma Config_Validate_run (cfg : Config.t) (w : World) :
  Config.Validate cfg w =
    (if Config.noScrapeConfigs cfg && is_nil (Config.TargetAllocator cfg)
     then Some (errorString "no Prometheus scrape_configs or target_allocator set")
     else None, cfg, w).
Proof.
  unfold Config.Validate, bind, field, ret; cbn.
  by destruct (_ && _).
Qed.

Lemma noScrapeConfigs_spec (cfg : Config.t) :
  Config.noScrapeConfigs cfg = true ↔
  Config.PrometheusConfig cfg = None ∨
  ∃ prom, Config.PrometheusConfig cfg = Some prom ∧
          promconfig.Config.ScrapeConfigs prom = [].
Proof.
  unfold Config.noScrapeConfigs.
  destruct (Config.PrometheusConfig cfg) as [prom|]; [|by intuition].
  destruct (promconfig.Config.ScrapeConfigs prom) eqn:E; cbn; split.
  - intros _. right. by exists prom.
  - done.
  - done.
  - intros [?|(prom' & ? & ?)]; simplify_eq; congruence.
Qed.

Lemma is_nil_spec {A} (p : option A) : is_nil p = true ↔ p = None.
Proof. by destruct p. Qed.

(** ** Config.Validate *)

(** C1: Config.Validate returns the incompleteness error exactly when the
    scrape-config set is absent or empty (PrometheusConfig is nil or has no
    ScrapeConfigs) and TargetAllocator is nil; every other configuration
    passes, in particular one with a TargetAllocator and no scrape config. *)
Theorem Config_Validate_incomplete (cfg : Config.t) (w : World) :
  let absent :=
    (Config.PrometheusConfig cfg = None ∨
     ∃ prom, Config.PrometheusConfig cfg = Some prom ∧
             promconfig.Config.ScrapeConfigs prom = []) ∧
    Config.TargetAllocator cfg = None in
  (absent ↔
   result (Config.Validate cfg w)
     = Some (errorString "no Prometheus scrape_configs or target_allocator set")) ∧
  (¬ absent ↔ result (Config.Validate cfg w) = None) ∧
  (∀ ta, Config.TargetAllocator cfg = Some ta → result (Config.Validate cfg w) = None).
Proof.
  intros absent. rewrite Config_Validate_run. unfold result; cbn.
  assert (Hab : absent ↔
    Config.noScrapeConfigs cfg && is_nil (Config.TargetAllocator cfg) = true).
  { unfold absent. by rewrite andb_true_iff, noScrapeConfigs_spec, is_nil_spec. }
  destruct (_ && _).
  - assert (Ha : absent) by (by apply Hab).
    split; [tauto|]. split; [split; [tauto | discriminate]|].
    intros ta Hta. destruct Ha as [_ Ha]. congruence.
  - assert (Hn : ¬ absent) by (intros Ha; apply Hab in Ha; discriminate).
    split; [split; [tauto | discriminate]|]. split; [tauto | done].
Qed.

(** ** Strings *)

#[local] Arguments String.append !_ _ / : simpl nomatch.

Lemma append_nil_r (s : string) : s +:+ "" = s.
Proof. induction s as [|c s IH]; simpl; [done | by rewrite IH]. Qed.

Lemma HasPrefix_spec (s prefix : string) :
  strings.HasPrefix s prefix = true ↔ ∃ rest, s = prefix +:+ rest.
Proof.
  revert s. induction prefix as [|p prefix IH]; intros s.
  - split; [by exists s | by destruct s].
  - destruct s as [|c s]; cbn.
    + split; [done | by intros [? ?]].
    + destruct (Ascii.eqb_spec c p) as [->|Hne]; rewrite ?IH.
      * split; intros [rest Hr]; exists rest; congruence.
      * split; [done | intros [rest Hr]; congruence].
Qed.

(** [strings.Contains] finds [substr] exactly when it lies somewhere in [s]. *)
Lemma Contains_spec (s substr : string) :
  strings.Contains s substr = true ↔ ∃ before after, s = before +:+ substr +:+ after.
Proof.
  induction s as [|c s IH]; cbn [strings.Contains];
    rewrite orb_true_iff, HasPrefix_spec.
  - split.
    + intros [[rest Hr]|?]; [|done]. by exists "", rest.
    + intros (before & after & Hs). left. exists after.
      destruct before; [done | discriminate].
  - rewrite IH. split.
    + intros [[rest Hr]|(before & after & Hs)].
      * by exists "", rest.
      * exists (String c before), after. cbn. by rewrite Hs.
    + intros (before & after & Hs). destruct before as [|b before]; cbn in Hs.
      * left. by exists after.
      * right. exists before, after. congruence.
Qed.

(** [sort.Strings] gives the elements of the slice in increasing order, which
    determines it: the model stands for any sorting algorithm. *)
Lemma sort_insert_perm (x : string) (l : list string) : sort.insert x l ≡ₚ x :: l.
Proof.
  induction l as [|y l IH]; cbn; [done|].
  destruct (String.leb x y); [done|]. by rewrite IH, Permutation_swap.
Qed.

Lemma sort_insert_sorted (x : string) (l : list string) :
  Sorted (λ a b, String.leb a b = true) l →
  Sorted (λ a b, String.leb a b = true) (sort.insert x l).
Proof.
  induction 1 as [|y l Hl IH Hhd]; cbn; [by repeat constructor|].
  destruct (String.leb x y) eqn:Exy.
  - by repeat constructor.
  - constructor; [done|].
    assert (Hyx : String.leb y x = true)
      by (destruct (String.leb_total x y); [congruence | done]).
    destruct Hhd as [|z l Hyz]; cbn; [by constructor|].
    destruct (String.leb x z); by constructor.
Qed.

Lemma sort_Strings_sorted (l : list string) :
  Sorted (λ a b, String.leb a b = true) (sort.Strings l) ∧ sort.Strings l ≡ₚ l.
Proof.
  induction l as [|x l [IHs IHp]]; cbn; [by split; constructor|].
  split; [by apply sort_insert_sorted|]. by rewrite sort_insert_perm, IHp.
Qed.

(** The model of [url.ParseRequestURI] on some endpoints: absolute URIs and
    absolute paths are fine, a scheme with a rootless path is taken as
    opaque, and a text without scheme and without a leading slash is not a
    request URI. *)
Example ParseRequestURI_examples :
  map (λ endpoint, is_nil (url.ParseRequestURI endpoint))
      ["http://localhost:8080"; "https://ta.example:443/jobs?x=1"; "/metrics";
       "localhost:8080"; "http://[::1]:80/"; "*";
       "not a url"; "localhost"; ""; "http://ta example/"; "http://ta:80a/"; "/a%zz"]
  = [true; true; true; true; true; true; false; false; false; false; false; false].
Proof. reflexivity. Qed.

(** ** TargetAllocator.Validate *)

Lemma TargetAllocator_Validate_run `{GoLib} (cfg : TargetAllocator.t) (w : World) :
  TargetAllocator.Validate cfg w =
    (match url_ParseRequestURI (TargetAllocator.Endpoint cfg) with
     | Some _ =>
         Some (errorString ("TargetAllocator endpoint is not valid: "
                            +:+ TargetAllocator.Endpoint cfg))
     | None =>
         if String.eqb (TargetAllocator.CollectorID cfg) ""
            || strings.Contains (TargetAllocator.CollectorID cfg) "${"
         then Some (errorString "CollectorID is not a valid ID")
         else None
     end, cfg, w).
Proof.
  unfold TargetAllocator.Validate, bind, field, ret; cbn.
  destruct (url_ParseRequestURI _); cbn.
  - by rewrite append_nil_r.
  - by destruct (_ || _).
Qed.

(** C3: TargetAllocator.Validate fails when url.ParseRequestURI rejects the
    endpoint, fails when the collector identifier is empty or contains
    the substring ${, and succeeds otherwise.  With Go's parser, the endpoint
    [not a url] fails, [http://localhost:8080] with the identifier [abc]
    passes, and the identifiers [${POD_NAME}] and the empty one fail with
    any endpoint. *)
Theorem TargetAllocator_Validate_spec :
  (∀ (L : GoLib) (cfg : TargetAllocator.t) (w : World),
     let endpoint := TargetAllocator.Endpoint cfg in
     let id := TargetAllocator.CollectorID cfg in
     let bad_id := id = "" ∨ ∃ before after, id = before +:+ "${" +:+ after in
     (url_ParseRequestURI endpoint ≠ None →
      result (TargetAllocator.Validate cfg w)
        = Some (errorString ("TargetAllocator endpoint is not valid: " +:+ endpoint))) ∧
     (url_ParseRequestURI endpoint = None → bad_id →
      result (TargetAllocator.Validate cfg w)
        = Some (errorString "CollectorID is not a valid ID")) ∧
     (result (TargetAllocator.Validate cfg w) = None ↔
      url_ParseRequestURI endpoint = None ∧ ¬ bad_id)) ∧
  (∀ id w, result (TargetAllocator.Validate (H := go_lib) (allocator "not a url" id) w)
           ≠ None) ∧
  (∀ w, result (TargetAllocator.Validate (H := go_lib)
                  (allocator "http://localhost:8080" "abc") w) = None) ∧
  (∀ (L : GoLib) endpoint w,
     result (TargetAllocator.Validate (allocator endpoint "${POD_NAME}") w) ≠ None) ∧
  (∀ (L : GoLib) endpoint w,
     result (TargetAllocator.Validate (allocator endpoint "") w) ≠ None).
Proof.
  split; [|split; [|split; [|split]]].
  - intros L cfg w endpoint id bad_id.
    rewrite TargetAllocator_Validate_run. unfold result; cbn. fold endpoint id.
    assert (Hid : bad_id ↔ String.eqb id "" || strings.Contains id "${" = true).
    { unfold bad_id. by rewrite orb_true_iff, String.eqb_eq, Contains_spec. }
    destruct (url_ParseRequestURI endpoint) as [e|].
    + split; [done|]. split; [done|]. split; [done | by intros [? _]].
    + destruct (_ || _).
      * split; [done|]. split; [done|]. split; [done|].
        intros [_ Hn]. destruct Hn. by apply Hid.
      * split; [done|]. split.
        -- intros _ Hb. apply Hid in Hb. discriminate.
        -- split; [|done]. intros _. split; [done|].
           intros Hb. apply Hid in Hb. discriminate.
  - intros id w. by rewrite TargetAllocator_Validate_run.
  - intros w. by rewrite TargetAllocator_Validate_run.
  - intros L endpoint w. rewrite TargetAllocator_Validate_run. unfold result; cbn.
    by destruct (url_ParseRequestURI _).
  - intros L endpoint w. rewrite TargetAllocator_Validate_run. unfold result; cbn.
    by destruct (url_ParseRequestURI _).
Qed.

(** ** PromConfig.Validate: unsupported features *)

Lemma in_use_spec {A} (l : list A) : in_use l = true ↔ l ≠ [].
Proof. by destruct l. Qed.

Lemma PromConfig_Validate_run `{GoLib} (cfg : PromConfig.t) (w : World) :
  PromConfig.Validate cfg w =
    if in_use (features cfg)
    then (Some (errorString (unsupported_text (sort.Strings (features cfg)))), cfg, w)
    else for_range (promconfig.Config.ScrapeConfigs cfg) PromConfig.checkScrapeConfig cfg w.
Proof.
  destruct cfg as [[relabel am] rf scs rw rr].
  unfold PromConfig.Validate, features, bind, field; cbn.
  destruct rw, rr, rf, relabel, am; cbn; try reflexivity.
Qed.

Lemma collected_sorted (rw rr rf relabel am : bool) :
  let labels := sort.Strings (collected rw rr rf relabel am) in
  increasing labels ∧
  ∀ label, label ∈ labels ↔
    (label = "remote_write" ∧ rw = true) ∨
    (label = "remote_read" ∧ rr = true) ∨
    (label = "rule_files" ∧ rf = true) ∨
    (label = "alert_config.relabel_configs" ∧ relabel = true) ∨
    (label = "alert_config.alertmanagers" ∧ am = true).
Proof.
  destruct rw, rr, rf, relabel, am; vm_compute sort.Strings; (split;
    [ repeat constructor
    | intros label; rewrite ?elem_of_cons, elem_of_nil; naive_solver ]).
Qed.

(** C2: when at least one of the five unsupported features is in use,
    PromConfig.Validate fails, and the text of the error is the heading
    followed by the labels of exactly the features in use, in strictly
    increasing lexicographic order, one per line. *)
Theorem PromConfig_Validate_unsupported `{GoLib} (cfg : PromConfig.t) (w : World) :
  (∃ label, violated cfg label) →
  ∃ e labels,
    result (PromConfig.Validate cfg w) = Some e ∧
    Error e = unsupported_text labels ∧
    (∀ label, label ∈ labels ↔ violated cfg label) ∧
    increasing labels.
Proof.
  intros [label0 Hv]. rewrite PromConfig_Validate_run. unfold features.
  set (alerting := promconfig.Config.AlertingConfig cfg) in *.
  set (rw := in_use (promconfig.Config.RemoteWriteConfigs cfg)).
  set (rr := in_use (promconfig.Config.RemoteReadConfigs cfg)).
  set (rf := in_use (promconfig.Config.RuleFiles cfg)).
  set (relabel := in_use (promconfig.AlertingConfig.AlertRelabelConfigs alerting)).
  set (am := in_use (promconfig.AlertingConfig.AlertmanagerConfigs alerting)).
  destruct (collected_sorted rw rr rf relabel am) as [Hsorted Hmem].
  assert (Hviolated : ∀ label,
    label ∈ sort.Strings (collected rw rr rf relabel am) ↔ violated cfg label).
  { intros label. rewrite Hmem. unfold violated, rw, rr, rf, relabel, am.
    by rewrite !in_use_spec. }
  assert (Huse : in_use (collected rw rr rf relabel am) = true).
  { apply Hviolated in Hv. revert Hv.
    destruct rw, rr, rf, relabel, am; try done.
    vm_compute sort.Strings. by rewrite elem_of_nil. }
  rewrite Huse.
  eexists _, (sort.Strings (collected rw rr rf relabel am)).
  split; [reflexivity|]. split; [reflexivity|]. by split.
Qed.

Lemma PromConfig_Validate_unsupported_witness :
  ∃ e labels,
    result (PromConfig.Validate (H := go_lib) rules_and_remote_read empty_fs) = Some e ∧
    Error e = unsupported_text labels ∧
    (∀ label, label ∈ labels ↔ violated rules_and_remote_read label) ∧
    increasing labels.
Proof.
  apply (PromConfig_Validate_unsupported (H := go_lib) rules_and_remote_read empty_fs).
  exists "rule_files". unfold violated; cbn. right; right; left. by split.
Defined.

(** For rule files and remote read together, the labels are [remote_read],
    then [rule_files]. *)
Example rules_and_remote_read_error :
  result (PromConfig.Validate (H := go_lib) rules_and_remote_read empty_fs)
  = Some (errorString
            ("unsupported features:" +:+ nl_tab +:+ "remote_read" +:+ nl_tab +:+ "rule_files")).
Proof. reflexivity. Qed.

(** ** File checks *)

Lemma after_nil (w : World) : after w [] = w.
Proof. destruct w as [f cs]. unfold after; cbn. by rewrite app_nil_r. Qed.

Lemma after_after (w : World) (a b : list Call) : after (after w a) b = after w (a ++ b).
Proof. unfold after; cbn. by rewrite app_assoc. Qed.

Section file_checks.
Context `{GoLib} {T : Type}.
Implicit Types (this : T) (w : World) (checks : list FileCheck).

Lemma checkFile_run (fn : string) this w :
  checkFile fn this w =
    if String.eqb fn "" then (None, this, w)
    else (PathError "stat" fn <$> fs w fn, this, after w [os_Stat_call fn]).
Proof. unfold checkFile. by destruct (String.eqb fn ""). Qed.

Lemma run_checks_app files checks1 checks2 :
  run_checks files (checks1 ++ checks2) =
    match run_checks files checks1 with
    | (cs, Some e) => (cs, Some e)
    | (cs, None) =>
        ((cs ++ (run_checks files checks2).1), (run_checks files checks2).2)
    end.
Proof.
  induction checks1 as [|[f path] checks1 IH]; cbn.
  - by destruct (run_checks files checks2).
  - destruct (String.eqb path ""); [done|].
    destruct (files path); [done|]. rewrite IH.
    by destruct (run_checks files checks1) as [cs [e|]].
Qed.

Lemma runs_as_nil : runs_as (T := T) (ret None) [].
Proof. intros this w. unfold ret; cbn. by rewrite after_nil. Qed.

(** [check m ;; k] does the checks of [m], then those of [k]. *)
Lemma runs_as_check (m k : Go T (option error)) checks1 checks2 :
  runs_as m checks1 → runs_as k checks2 →
  runs_as (check m ;; k) (checks1 ++ checks2).
Proof.
  intros Hm Hk this w. unfold bind. rewrite Hm, run_checks_app.
  destruct (run_checks (fs w) checks1) as [cs [e|]]; cbn; [done|].
  by rewrite Hk, after_after.
Qed.

Lemma runs_as_for_range {A} (l : list A) (body : A → Go T (option error))
    (checks : A → list FileCheck) :
  (∀ x, runs_as (body x) (checks x)) →
  runs_as (for_range l body) (flat_map checks l).
Proof.
  intros Hbody. induction l as [|x l IH]; cbn [for_range flat_map].
  - apply runs_as_nil.
  - by apply runs_as_check.
Qed.

(** The error that the code formats for a file that cannot be stat-ed. *)
Lemma Errorf_missing_file (f : FileField) (path : string) (errno : Errno) :
  fmt.Errorf (heading f +:+ "%q: %w") [fmt.Str path; fmt.Err (PathError "stat" path errno)]
  = missing_file f path errno.
Proof.
  unfold fmt.Errorf, missing_file. destruct f; cbn; by rewrite append_nil_r.
Qed.

Lemma runs_as_checkTLSConfig (tls : TLSConfig.t) :
  runs_as (T := T) (checkTLSConfig tls) (tls_checks tls).
Proof.
  intros this w. unfold checkTLSConfig, bind, tls_checks.
  rewrite checkFile_run. cbn [run_checks].
  destruct (String.eqb (TLSConfig.CertFile tls) "") eqn:Ecert.
  - rewrite checkFile_run.
    destruct (String.eqb (TLSConfig.KeyFile tls) "") eqn:Ekey; cbn.
    + by rewrite after_nil.
    + destruct (fs w (TLSConfig.KeyFile tls)) as [errno|] eqn:Efs; cbn; [|done].
      unfold ret. by rewrite <- (Errorf_missing_file key_file).
  - destruct (fs w (TLSConfig.CertFile tls)) as [errno|] eqn:Efs; cbn.
    + unfold ret. by rewrite <- (Errorf_missing_file cert_file).
    + rewrite checkFile_run.
      destruct (String.eqb (TLSConfig.KeyFile tls) "") eqn:Ekey; cbn; [done|].
      destruct (fs w (TLSConfig.KeyFile tls)) as [errno|] eqn:Efs'; cbn.
      * unfold ret. by rewrite <- (Errorf_missing_file key_file), after_after.
      * by rewrite after_after.
Qed.
End file_checks.

Section PromConfig_files.
Context `{GoLib}.

Lemma runs_as_checkDiscovery (c : discovery.Config) :
  runs_as (PromConfig.checkDiscovery c) (discovery_checks c).
Proof.
  destruct c; try apply runs_as_nil. cbn [PromConfig.checkDiscovery discovery_checks].
  rewrite <- (app_nil_r (tls_checks _)).
  apply runs_as_check; [apply runs_as_checkTLSConfig | apply runs_as_nil].
Qed.

Lemma runs_as_credentials (client : HTTPClientConfig.t) :
  runs_as (T := PromConfig.t)
    match HTTPClientConfig.Authorization client with
    | Some authorization =>
        err <- checkFile (Authorization.CredentialsFile authorization) ;;
        match err with
        | Some err =>
            ret (Some (fmt.Errorf
                   "error checking authorization credentials file %q: %w"
                   [fmt.Str (Authorization.CredentialsFile authorization);
                    fmt.Err err]))
        | None => ret None
        end
    | None => ret None
    end
    match HTTPClientConfig.Authorization client with
    | Some authorization =>
        [(credentials_file, Authorization.CredentialsFile authorization)]
    | None => []
    end.
Proof.
  destruct (HTTPClientConfig.Authorization client) as [authorization|];
    [|apply runs_as_nil].
  intros this w. unfold bind. rewrite checkFile_run. cbn [run_checks].
  destruct (String.eqb _ ""); cbn; [by rewrite after_nil|].
  destruct (fs w _) as [errno|]; cbn; [|done].
  unfold ret. by rewrite <- (Errorf_missing_file credentials_file).
Qed.

Lemma runs_as_checkScrapeConfig (sc : promconfig.ScrapeConfig.t) :
  runs_as (PromConfig.checkScrapeConfig sc) (job_checks sc).
Proof.
  unfold PromConfig.checkScrapeConfig, job_checks.
  apply runs_as_check; [apply runs_as_credentials|].
  apply runs_as_check; [apply runs_as_checkTLSConfig|].
  apply runs_as_for_range, runs_as_checkDiscovery.
Qed.

End PromConfig_files.

Lemma PromConfig_Validate_validation `{GoLib} (cfg : PromConfig.t) (w : World) :
  PromConfig.Validate cfg w =
    ((validation (fs w) cfg).2, cfg, after w (validation (fs w) cfg).1).
Proof.
  rewrite PromConfig_Validate_run. unfold validation.
  destruct (in_use (features cfg)); cbn.
  - by rewrite after_nil.
  - apply (runs_as_for_range _ _ job_checks), runs_as_checkScrapeConfig.
Qed.

Lemma violated_features (cfg : PromConfig.t) :
  (∃ label, violated cfg label) ↔ in_use (features cfg) = true.
Proof.
  unfold violated, features.
  set (alerting := promconfig.Config.AlertingConfig cfg).
  setoid_rewrite <- in_use_spec.
  set (rw := in_use (promconfig.Config.RemoteWriteConfigs cfg)).
  set (rr := in_use (promconfig.Config.RemoteReadConfigs cfg)).
  set (rf := in_use (promconfig.Config.RuleFiles cfg)).
  set (relabel := in_use (promconfig.AlertingConfig.AlertRelabelConfigs alerting)).
  set (am := in_use (promconfig.AlertingConfig.AlertmanagerConfigs alerting)).
  clearbody rw rr rf relabel am. split.
  - intros [label [[_ ->]|[[_ ->]|[[_ ->]|[[_ ->]|[_ ->]]]]]];
      repeat match goal with b : bool |- _ => destruct b end; done.
  - destruct rw; [exists "remote_write"; tauto|].
    destruct rr; [exists "remote_read"; tauto|].
    destruct rf; [exists "rule_files"; tauto|].
    destruct relabel; [exists "alert_config.relabel_configs"; tauto|].
    destruct am; [exists "alert_config.alertmanagers"; tauto|].
    done.
Qed.

(** ** What a list of checks comes to *)

Section run_checks.
Context `{GoLib}.
Implicit Types (files : string → option Errno) (checks : list FileCheck).

Lemma run_checks_pass files checks :
  Forall (passes files) checks →
  run_checks files checks = (stat_calls checks, None).
Proof.
  induction 1 as [|[f path] checks Hpass _ IH]; cbn; [done|].
  destruct (String.eqb_spec path "") as [->|Hne]; [done|].
  destruct Hpass as [?|Hfile]; cbn in *; [done|]. by rewrite Hfile, IH.
Qed.

(** The first check that fails decides the result; the checks after it
    are not run. *)
Lemma run_checks_first_failure files before f path errno later :
  Forall (passes files) before → path ≠ "" → files path = Some errno →
  run_checks files (before ++ (f, path) :: later)
  = (stat_calls before ++ [os_Stat_call path], Some (missing_file f path errno)).
Proof.
  intros Hpass Hne Hfile. rewrite run_checks_app, (run_checks_pass _ _ Hpass).
  cbn. apply String.eqb_neq in Hne. by rewrite Hne, Hfile.
Qed.

Lemma run_checks_cons_fail files f path errno rest :
  path ≠ "" → files path = Some errno →
  run_checks files ((f, path) :: rest)
  = ([os_Stat_call path], Some (missing_file f path errno)).
Proof. exact (run_checks_first_failure files [] f path errno rest (List.Forall_nil _)). Qed.

Lemma run_checks_cons_pass files f path rest :
  passes files (f, path) →
  (run_checks files ((f, path) :: rest)).2 = (run_checks files rest).2.
Proof.
  intros Hpass. cbn. destruct (String.eqb_spec path "") as [->|Hne]; [done|].
  destruct Hpass as [?|Hfile]; cbn in *; [done|]. rewrite Hfile.
  by destruct (run_checks files rest).
Qed.

(** An error of the file checks is the error of one of them. *)
Lemma run_checks_error files checks e :
  (run_checks files checks).2 = Some e →
  ∃ f path errno,
    (f, path) ∈ checks ∧ path ≠ "" ∧ files path = Some errno ∧
    e = missing_file f path errno.
Proof.
  induction checks as [|[f path] checks IH]; cbn; [done|].
  destruct (String.eqb_spec path "") as [->|Hne].
  - intros (f' & path' & errno & ? & ?)%IH. exists f', path', errno.
    split; [by right | done].
  - destruct (files path) as [errno|] eqn:Hfile; cbn.
    + intros [= <-]. exists f, path, errno. split; [by left | done].
    + destruct (run_checks files checks) as [cs r]; cbn in *.
      intros (f' & path' & errno & ? & ?)%IH. exists f', path', errno.
      split; [by right | done].
Qed.
End run_checks.

(** ** checkFile and checkTLSConfig *)

(** C5: a file check with an empty path succeeds and leaves the world as it
    is (no call of os.Stat); a path that is not empty is stat-ed once, and the
    error of os.Stat is the result.  For the certificate, the key and the
    credentials file, a file that cannot be stat-ed gives an error that wraps
    the error of os.Stat and whose text is the heading of the field, the
    quoted path and the error of os.Stat, which names the path again; the
    headings of certificate and key differ. *)
Theorem file_check_spec `{GoLib} {T : Type} (this : T) (cfg : PromConfig.t) (w : World) :
  checkFile "" this w = (None, this, w) ∧
  (∀ fn, fn ≠ "" →
     checkFile fn this w = (PathError "stat" fn <$> fs w fn, this, after w [os_Stat_call fn])) ∧
  (∀ tls,
     let cert := TLSConfig.CertFile tls in
     let key := TLSConfig.KeyFile tls in
     (∀ errno, cert ≠ "" → fs w cert = Some errno →
        result (checkTLSConfig tls this w) = Some (missing_file cert_file cert errno)) ∧
     (∀ errno, passes (fs w) (cert_file, cert) → key ≠ "" → fs w key = Some errno →
        result (checkTLSConfig tls this w) = Some (missing_file key_file key errno)) ∧
     (passes (fs w) (cert_file, cert) → passes (fs w) (key_file, key) →
        result (checkTLSConfig tls this w) = None) ∧
     (cert = "" → key = "" → checkTLSConfig tls this w = (None, this, w))) ∧
  (∀ sc authorization errno,
     HTTPClientConfig.Authorization (promconfig.ScrapeConfig.HTTPClientConfig sc)
       = Some authorization →
     let path := Authorization.CredentialsFile authorization in
     path ≠ "" → fs w path = Some errno →
     result (PromConfig.checkScrapeConfig sc cfg w)
       = Some (missing_file credentials_file path errno)) ∧
  (∀ f path errno,
     Error (missing_file f path errno)
     = heading f +:+ strconv_Quote path +:+ ": stat " +:+ path +:+ ": " +:+ Errno_Error errno ∧
     Unwrap (missing_file f path errno) = Some (PathError "stat" path errno)) ∧
  (∀ path1 path2 errno1 errno2,
     Error (missing_file cert_file path1 errno1) ≠ Error (missing_file key_file path2 errno2)).
Proof.
  split; [by rewrite checkFile_run|].
  split.
  { intros fn Hfn. rewrite checkFile_run. apply String.eqb_neq in Hfn. by rewrite Hfn. }
  split.
  { intros tls cert key.
    pose proof (runs_as_checkTLSConfig tls this w) as Hrun.
    unfold tls_checks in Hrun. fold cert key in Hrun. unfold result.
    repeat split.
    - intros errno Hne Hfile. by rewrite Hrun, (run_checks_cons_fail _ _ _ errno).
    - intros errno Hcert Hne Hfile. rewrite Hrun. cbn [fst snd].
      by rewrite run_checks_cons_pass, (run_checks_cons_fail _ _ _ errno).
    - intros Hcert Hkey. rewrite Hrun. by rewrite run_checks_pass; [|repeat first [done | constructor]].
    - intros Hcert Hkey. rewrite Hrun. cbn. by rewrite Hcert, Hkey, after_nil. }
  split.
  { intros sc authorization errno Hauth path Hne Hfile.
    rewrite runs_as_checkScrapeConfig. unfold result, job_checks. rewrite Hauth.
    cbn [fst snd]. fold path.
    cbn [app]. by rewrite (run_checks_cons_fail _ _ _ errno). }
  split.
  { intros f path errno. by split. }
  intros path1 path2 errno1 errno2. cbn. discriminate.
Qed.

Lemma file_check_spec_witness :
  checkFile "" tt empty_fs = (None, tt, empty_fs) ∧
  result (checkTLSConfig (H := go_lib) (T := unit)
            (TLSConfig.mk "" "/certs/a.crt" "/certs/a.key") tt empty_fs)
  = Some (missing_file (H := go_lib) cert_file "/certs/a.crt" ENOENT).
Proof.
  pose proof (file_check_spec (H := go_lib) tt two_jobs empty_fs) as (H0 & _ & Htls & _).
  split; [exact H0|].
  by apply (Htls (TLSConfig.mk "" "/certs/a.crt" "/certs/a.key")).
Defined.

(** ** PromConfig.Validate: the order of the checks *)

(** C10: with an unsupported feature in use, PromConfig.Validate returns
    the feature error and makes no call at all, so no file is looked at.
    Otherwise it runs the file checks in order (job after job; in a job the
    credentials file, the certificate, the key, then the Kubernetes discovery
    entries) and stops at the first file that cannot be stat-ed: the error is
    the one of that file, and the files after it are not stat-ed. *)
Theorem PromConfig_Validate_order `{GoLib} (cfg : PromConfig.t) (w : World) :
  ((∃ label, violated cfg label) →
   ∃ labels,
     result (PromConfig.Validate cfg w) = Some (errorString (unsupported_text labels)) ∧
     world (PromConfig.Validate cfg w) = w) ∧
  ((∀ label, ¬ violated cfg label) →
   (∀ before f path errno later,
      file_checks cfg = before ++ (f, path) :: later →
      Forall (passes (fs w)) before → path ≠ "" → fs w path = Some errno →
      result (PromConfig.Validate cfg w) = Some (missing_file f path errno) ∧
      calls (world (PromConfig.Validate cfg w))
        = calls w ++ stat_calls before ++ [os_Stat_call path]) ∧
   (Forall (passes (fs w)) (file_checks cfg) →
      result (PromConfig.Validate cfg w) = None ∧
      calls (world (PromConfig.Validate cfg w)) = calls w ++ stat_calls (file_checks cfg))).
Proof.
  rewrite PromConfig_Validate_validation. unfold validation, result, world.
  split.
  - intros Hv%violated_features. rewrite Hv. cbn. rewrite after_nil. eauto.
  - intros Hnone.
    assert (Huse : in_use (features cfg) = false).
    { destruct (in_use (features cfg)) eqn:E; [|done].
      apply violated_features in E as [label Hv]. by destruct (Hnone label). }
    rewrite Huse. split.
    + intros before f path errno later -> Hpass Hne Hfile.
      by rewrite (run_checks_first_failure _ _ _ _ errno).
    + intros Hpass. by rewrite run_checks_pass.
Qed.

(** On a filesystem that holds the token of job [a] only, the certificate
    of job [a] is the first failure: the key of job [b] and the certificate of
    its Kubernetes entry, which are missing too, are neither reported nor
    stat-ed. *)
Lemma PromConfig_Validate_order_witness :
  let w := mkWorld (files_of ["/secrets/a-token"]) [] in
  result (PromConfig.Validate (H := go_lib) two_jobs w)
    = Some (missing_file (H := go_lib) cert_file "/certs/a.crt" ENOENT) ∧
  calls (world (PromConfig.Validate (H := go_lib) two_jobs w))
    = [os_Stat_call "/secrets/a-token"; os_Stat_call "/certs/a.crt"].
Proof.
  intros w.
  pose proof (PromConfig_Validate_order (H := go_lib) two_jobs w) as [_ Hfiles].
  destruct Hfiles as [Hfirst _].
  { intros label Hv. unfold violated in Hv; cbn in Hv. intuition congruence. }
  apply (Hfirst [(credentials_file, "/secrets/a-token")] cert_file "/certs/a.crt" ENOENT
           [(key_file, ""); (cert_file, ""); (key_file, "/certs/b.key");
            (cert_file, "/certs/kube.crt"); (key_file, "")]).
  - reflexivity.
  - constructor; [by right | constructor].
  - discriminate.
  - reflexivity.
Defined.

(** ** Discovery entries *)

Lemma discovery_checks_filter (l : list discovery.Config) :
  flat_map discovery_checks (List.filter is_kubernetes l) = flat_map discovery_checks l.
Proof.
  induction l as [|c l IH]; cbn; [done|].
  destruct c; cbn; by rewrite IH.
Qed.

Lemma file_checks_only_kubernetes (cfg : PromConfig.t) :
  file_checks (only_kubernetes cfg) = file_checks cfg.
Proof.
  unfold file_checks, only_kubernetes; cbn.
  induction (promconfig.Config.ScrapeConfigs cfg) as [|sc scs IH]; cbn; [done|].
  rewrite IH. f_equal. unfold job_checks; cbn. by rewrite discovery_checks_filter.
Qed.

(** C8: a discovery entry that is not of the Kubernetes kind is not looked
    at (no error, no call, whatever files it names); a Kubernetes entry gets
    the TLS check of its client configuration; and validation of a
    configuration comes to the same, in result and in calls, as validation of
    the configuration without its entries of the other kinds. *)
Theorem discovery_only_kubernetes `{GoLib} (cfg : PromConfig.t) (w : World) :
  (∀ c, is_kubernetes c = false → PromConfig.checkDiscovery c cfg w = (None, cfg, w)) ∧
  (∀ c,
     let tls := HTTPClientConfig.TLSConfig (kubernetes.SDConfig.HTTPClientConfig c) in
     PromConfig.checkDiscovery (discovery.kubernetes_SDConfig c) cfg w
     = checkTLSConfig tls cfg w) ∧
  result (PromConfig.Validate (only_kubernetes cfg) w) = result (PromConfig.Validate cfg w) ∧
  world (PromConfig.Validate (only_kubernetes cfg) w) = world (PromConfig.Validate cfg w).
Proof.
  split; [by intros []|]. split.
  - intros c tls.
    rewrite (runs_as_checkDiscovery (discovery.kubernetes_SDConfig c)).
    by rewrite (runs_as_checkTLSConfig tls).
  - rewrite !PromConfig_Validate_validation. unfold validation, result, world.
    by rewrite file_checks_only_kubernetes.
Qed.

(** The certificate and the key of an HTTP discovery entry are missing: the
    entry passes without a call, and validation passes as it does without the
    entry. *)
Lemma discovery_only_kubernetes_witness :
  let entry :=
    discovery.http_SDConfig
      (promHTTP.SDConfig.mk
         (HTTPClientConfig.mk None (TLSConfig.mk "" "/certs/sd.crt" "/certs/sd.key"))
         60 "http://sd.example/targets") in
  PromConfig.checkDiscovery (H := go_lib) entry http_discovery_job empty_fs
    = (None, http_discovery_job, empty_fs) ∧
  result (PromConfig.Validate (H := go_lib) (only_kubernetes http_discovery_job) empty_fs)
    = result (PromConfig.Validate (H := go_lib) http_discovery_job empty_fs).
Proof.
  intros entry.
  destruct (discovery_only_kubernetes (H := go_lib) http_discovery_job empty_fs)
    as (Hother & _ & Hresult & _).
  split; [apply Hother; reflexivity | exact Hresult].
Defined.

(** ** The context of a missing-file error *)

Lemma file_checks_rename_jobs (f : string → string) (cfg : PromConfig.t) :
  file_checks (rename_jobs f cfg) = file_checks cfg.
Proof.
  unfold file_checks, rename_jobs; cbn.
  induction (promconfig.Config.ScrapeConfigs cfg) as [|sc scs IH]; cbn; [done|].
  by rewrite IH.
Qed.

(** C6, as the code has it: a missing-file error of PromConfig.Validate is
    the error of one file check of the configuration; its text has the
    heading of the field, the quoted path and the error of os.Stat with the
    path.  The job is not part of it: the result is the same whatever the
    names of the jobs are. *)
Theorem missing_file_error_context `{GoLib} (cfg : PromConfig.t) (w : World) (e : error) :
  (∀ label, ¬ violated cfg label) →
  result (PromConfig.Validate cfg w) = Some e →
  (∃ f path errno,
     (f, path) ∈ file_checks cfg ∧ path ≠ "" ∧ fs w path = Some errno ∧
     e = missing_file f path errno ∧
     Error e = heading f +:+ strconv_Quote path +:+ ": stat " +:+ path +:+ ": "
               +:+ Errno_Error errno) ∧
  (∀ rename, result (PromConfig.Validate (rename_jobs rename cfg) w) = Some e).
Proof.
  intros Hnone. rewrite PromConfig_Validate_validation. unfold result. cbn [fst snd].
  intros He. split.
  - unfold validation in He.
    destruct (in_use (features cfg)) eqn:E.
    { apply violated_features in E as [label Hv]. by destruct (Hnone label). }
    apply run_checks_error in He as (f & path & errno & ? & ? & ? & ->).
    by exists f, path, errno.
  - intros rename. rewrite PromConfig_Validate_validation. cbn [fst snd].
    rewrite <- He. unfold validation. by rewrite file_checks_rename_jobs.
Qed.

Lemma missing_file_error_context_witness :
  result (PromConfig.Validate (H := go_lib)
            (rename_jobs (λ name, name +:+ "-renamed") (token_job "job-a")) empty_fs)
  = Some (missing_file (H := go_lib) credentials_file "/secrets/token" ENOENT).
Proof.
  refine (proj2 (missing_file_error_context (H := go_lib) (token_job "job-a") empty_fs
                   (missing_file (H := go_lib) credentials_file "/secrets/token" ENOENT)
                   _ _) _).
  - intros label Hv. unfold violated in Hv; cbn in Hv. intuition congruence.
  - reflexivity.
Defined.

(** The error for the missing token file of the job [job-a] does not hold
    the name of the job, and it is the very error that the job [job-b] gets. *)
Lemma missing_file_error_without_job :
  ∃ e,
    result (PromConfig.Validate (H := go_lib) (token_job "job-a") empty_fs) = Some e ∧
    Error e = "error checking authorization credentials file "
              +:+ String dquote "/secrets/token" +:+ String dquote ""
              +:+ ": stat /secrets/token: no such file or directory" ∧
    strings.Contains (Error e) "job-a" = false ∧
    result (PromConfig.Validate (H := go_lib) (token_job "job-b") empty_fs) = Some e.
Proof. eexists. repeat split; reflexivity. Qed.

(** ** Validation twice *)

(** C9: each of Config.Validate, PromConfig.Validate and
    TargetAllocator.Validate leaves the configuration object and the
    filesystem as they are, and a second run right after the first gives the
    same result as the first. *)
Theorem Validate_idempotent `{GoLib} :
  idempotent Config.Validate ∧
  idempotent PromConfig.Validate ∧
  idempotent TargetAllocator.Validate.
Proof.
  split; [|split]; intros this w; cbn zeta.
  - by rewrite !Config_Validate_run.
  - rewrite (PromConfig_Validate_validation this w). unfold receiver, world; cbn [fst snd].
    by rewrite (PromConfig_Validate_validation this (after w _)).
  - by rewrite !TargetAllocator_Validate_run.
Qed.

(** ** The decoding adapters *)

(** C7: for an empty mapping, PromConfig.Unmarshal and
    PromHTTPSDConfig.Unmarshal return nil, leave the receiver as it is, and
    make no call (neither yaml.Marshal nor yaml.UnmarshalStrict); a receiver
    that holds the zero value still holds it. *)
Theorem Unmarshal_empty `{GoLib} {E : yaml.Encoder}
    {D : yaml.Decoder PromConfig.t} {D' : yaml.Decoder PromHTTPSDConfig.t}
    (conf : confmap.Conf) (w : World) :
  confmap.ToStringMap conf = ∅ →
  (∀ cfg, PromConfig.Unmarshal conf cfg w = (None, cfg, w)) ∧
  (∀ cfg, PromHTTPSDConfig.Unmarshal conf cfg w = (None, cfg, w)) ∧
  receiver (PromConfig.Unmarshal conf promconfig.Config.zero w) = promconfig.Config.zero ∧
  receiver (PromHTTPSDConfig.Unmarshal conf promHTTP.SDConfig.zero w)
    = promHTTP.SDConfig.zero.
Proof.
  intros Hempty.
  unfold PromConfig.Unmarshal, PromHTTPSDConfig.Unmarshal. rewrite Hempty.
  rewrite map_size_empty. done.
Qed.

Lemma Unmarshal_empty_witness :
  PromConfig.Unmarshal (H := go_lib) (H0 := url_line_encoder) (H1 := no_field_decoder)
    (confmap.mk ∅) promconfig.Config.zero empty_fs
    = (None, promconfig.Config.zero, empty_fs) ∧
  PromHTTPSDConfig.Unmarshal (H := go_lib) (H0 := url_line_encoder) (H1 := url_line_decoder)
    (confmap.mk ∅) promHTTP.SDConfig.zero empty_fs
    = (None, promHTTP.SDConfig.zero, empty_fs).
Proof.
  destruct (Unmarshal_empty (H := go_lib) (E := url_line_encoder)
              (D := no_field_decoder) (D' := url_line_decoder)
              (confmap.mk ∅) empty_fs eq_refl) as (Hprom & Hsd & _).
  split; [apply Hprom | apply Hsd].
Defined.

Lemma unmarshalYAML_run `{GoLib} {E : yaml.Encoder} `{D : yaml.Decoder T}
    (input : gmap string any) (this : T) (w : World) :
  unmarshalYAML input this w =
    match yaml.encode input with
    | (_, Some err) =>
        (Some (fmt.Errorf "prometheus receiver: failed to marshal config to yaml: %w"
                 [fmt.Err err]),
         this, after w [yaml_Marshal_call input])
    | (yamlOut, None) =>
        (match (yaml.decode yamlOut this).1 with
         | Some err =>
             Some (fmt.Errorf
                     "prometheus receiver: failed to unmarshal yaml to prometheus config object: %w"
                     [fmt.Err err])
         | None => None
         end,
         (yaml.decode yamlOut this).2,
         after w [yaml_Marshal_call input; yaml_UnmarshalStrict_call yamlOut])
    end.
Proof.
  unfold unmarshalYAML, yaml.Marshal, yaml.UnmarshalStrict, bind, record_call, field,
    assign, ret; cbn.
  destruct (yaml.encode input) as [yamlOut [err|]]; [done|].
  cbn. destruct (yaml.decode yamlOut this) as [[err|] out]; cbn; unfold after; cbn;
    by rewrite <- app_assoc.
Qed.

(** C4: for a mapping that is not empty, PromHTTPSDConfig.Unmarshal puts
    the placeholder under the key url before anything else, and what it
    marshals and decodes is the mapping with that entry, whether the mapping
    had a url or not.  With an encoder and a decoder of the HTTP discovery
    schema, the error for a missing URL cannot come out, and a successful
    decoding leaves the placeholder in the field URL. *)
Theorem PromHTTPSDConfig_Unmarshal_placeholder `{GoLib}
    {E : yaml.Encoder} {D : yaml.Decoder PromHTTPSDConfig.t}
    (conf : confmap.Conf) (cfg : PromHTTPSDConfig.t) (w : World) :
  confmap.ToStringMap conf ≠ ∅ →
  url_schema E D →
  let input := <["url" := any_string placeholder]> (confmap.ToStringMap conf) in
  let run := PromHTTPSDConfig.Unmarshal conf cfg w in
  run = unmarshalYAML input cfg w ∧
  input !! "url" = Some (any_string placeholder) ∧
  (∃ rest, calls (world run) = calls w ++ yaml_Marshal_call input :: rest) ∧
  result run ≠ Some URL_required ∧
  (result run = None → promHTTP.SDConfig.URL (receiver run) = placeholder).
Proof.
  intros Hne Hschema input run.
  assert (Hrun : run = unmarshalYAML input cfg w).
  { unfold run, PromHTTPSDConfig.Unmarshal.
    apply map_size_non_empty_iff, Nat.eqb_neq in Hne. by rewrite Hne. }
  assert (Hurl : input !! "url" = Some (any_string placeholder))
    by apply lookup_insert_eq.
  split; [done|]. split; [done|].
  rewrite Hrun, unmarshalYAML_run. unfold result, receiver, world.
  specialize (Hschema input placeholder).
  destruct (yaml.encode input) as [yamlOut [err|]] eqn:Eenc; cbn [fst snd].
  - split; [by eexists|]. split; [|done].
    unfold URL_required, fmt.Errorf; cbn. discriminate.
  - specialize (Hschema yamlOut cfg Hurl eq_refl).
    split; [by eexists|].
    destruct (yaml.decode yamlOut cfg) as [[err|] out]; cbn [fst snd].
    + split; [|done]. unfold URL_required, fmt.Errorf. cbn [fmt.wrapped].
      intros [= _ ->]. by specialize (Hschema eq_refl).
    + split; [done|]. by intros _.
Qed.

Lemma url_line_schema : url_schema url_line_encoder url_line_decoder.
Proof.
  intros m u data c Hu [= <-]. unfold url_line. rewrite Hu.
  unfold yaml.decode, url_line_decoder; cbn.
  destruct (String.eqb_spec u ""); done.
Qed.

(** A block with a refresh interval and no URL decodes, and the URL of the
    decoded configuration is the placeholder. *)
Lemma PromHTTPSDConfig_Unmarshal_placeholder_witness :
  let run :=
    PromHTTPSDConfig.Unmarshal (H := go_lib) (H0 := url_line_encoder)
      (H1 := url_line_decoder) refresh_only promHTTP.SDConfig.zero empty_fs in
  result run = None ∧ promHTTP.SDConfig.URL (receiver run) = placeholder.
Proof.
  intros run.
  destruct (PromHTTPSDConfig_Unmarshal_placeholder (H := go_lib)
              (E := url_line_encoder) (D := url_line_decoder)
              refresh_only promHTTP.SDConfig.zero empty_fs) as (_ & _ & _ & _ & Hok).
  - apply map_non_empty_singleton.
  - exact url_line_schema.
  - assert (Hnone : result run = None) by reflexivity.
    split; [exact Hnone | exact (Hok Hnone)].
Defined.

(** The same block without the placeholder is refused for its missing URL. *)
Example refresh_only_without_placeholder :
  result (unmarshalYAML (H := go_lib) (H0 := url_line_encoder) (H1 := url_line_decoder)
            (confmap.ToStringMap refresh_only) promHTTP.SDConfig.zero empty_fs)
  = Some (URL_required (H := go_lib)).
Proof. reflexivity. Qed.

(** * Further properties of config.go *)

(** ** unmarshalYAML *)

(** X1: unmarshalYAML reports the failure of either stage as an error that
    wraps the error of the library under the heading of the stage, and the
    two headings never give the same text.  After a failure of yaml.Marshal
    the object is as it was and yaml.UnmarshalStrict is not called.  Otherwise
    the document of yaml.Marshal is decoded, once, and the object is what the
    decoder leaves, also when the decoder fails: nothing is rolled back. *)
Theorem unmarshalYAML_stages `{GoLib} {E : yaml.Encoder} `{D : yaml.Decoder T}
    (input : gmap string any) (this : T) (w : World) :
  let run := unmarshalYAML input this w in
  let data := (yaml.encode input).1 in
  (∀ cause, (yaml.encode input).2 = Some cause →
     result run = Some (wrapError (marshal_heading +:+ Error cause) cause) ∧
     receiver run = this ∧
     calls (world run) = calls w ++ [yaml_Marshal_call input]) ∧
  ((yaml.encode input).2 = None →
     calls (world run)
       = calls w ++ [yaml_Marshal_call input; yaml_UnmarshalStrict_call data] ∧
     receiver run = (yaml.decode data this).2 ∧
     (∀ cause, (yaml.decode data this).1 = Some cause →
        result run = Some (wrapError (unmarshal_heading +:+ Error cause) cause)) ∧
     ((yaml.decode data this).1 = None → result run = None)) ∧
  (∀ cause1 cause2,
     marshal_heading +:+ Error cause1 ≠ unmarshal_heading +:+ Error cause2).
Proof.
  intros run data. unfold run, data. rewrite unmarshalYAML_run.
  destruct (yaml.encode input) as [yamlOut [err|]]; unfold result, receiver, world;
    cbn [fst snd].
  - split; [|split; [done|]].
    + intros cause [= <-]. unfold fmt.Errorf; cbn. by rewrite append_nil_r.
    + intros cause1 cause2. cbn. discriminate.
  - split; [done|]. split.
    + intros _. split; [done|]. split; [done|].
      destruct (yaml.decode yamlOut this) as [[err|] out]; cbn [fst snd].
      * split; [|done]. intros cause [= <-]. unfold fmt.Errorf; cbn.
        by rewrite append_nil_r.
      * by split.
    + intros cause1 cause2. cbn. discriminate.
Qed.

Lemma unmarshalYAML_stages_witness :
  let run :=
    unmarshalYAML (H := go_lib) (H0 := url_line_encoder) (H1 := url_line_decoder)
      (confmap.ToStringMap refresh_only) promHTTP.SDConfig.zero empty_fs in
  result run = Some (wrapError (unmarshal_heading +:+ "URL is missing") URL_missing) ∧
  receiver run = DefaultSDConfig.
Proof.
  intros run.
  destruct (unmarshalYAML_stages (H := go_lib) (E := url_line_encoder)
              (D := url_line_decoder) (confmap.ToStringMap refresh_only)
              promHTTP.SDConfig.zero empty_fs) as (_ & Hdecode & _).
  destruct (Hdecode eq_refl) as (_ & Hreceiver & Herror & _).
  split; [exact (Herror URL_missing eq_refl) | exact Hreceiver].
Defined.

(** ** PromHTTPSDConfig.Unmarshal and the URL of the user *)

(** X2: PromHTTPSDConfig.Unmarshal does not depend on what the mapping has
    under the key url: two mappings that are not empty and agree on all the
    other keys give the same run, whether they have a url or not. *)
Theorem PromHTTPSDConfig_Unmarshal_ignores_url `{GoLib}
    {E : yaml.Encoder} {D : yaml.Decoder PromHTTPSDConfig.t}
    (conf1 conf2 : confmap.Conf) (cfg : PromHTTPSDConfig.t) (w : World) :
  confmap.ToStringMap conf1 ≠ ∅ →
  confmap.ToStringMap conf2 ≠ ∅ →
  delete "url" (confmap.ToStringMap conf1) = delete "url" (confmap.ToStringMap conf2) →
  PromHTTPSDConfig.Unmarshal conf1 cfg w = PromHTTPSDConfig.Unmarshal conf2 cfg w.
Proof.
  intros Hne1 Hne2 Hsame. unfold PromHTTPSDConfig.Unmarshal.
  apply map_size_non_empty_iff, Nat.eqb_neq in Hne1, Hne2. rewrite Hne1, Hne2.
  by rewrite <- (insert_delete_eq (confmap.ToStringMap conf1)), Hsame, insert_delete_eq.
Qed.

Lemma PromHTTPSDConfig_Unmarshal_ignores_url_witness :
  PromHTTPSDConfig.Unmarshal (H := go_lib) (H0 := url_line_encoder)
    (H1 := url_line_decoder) refresh_and_url promHTTP.SDConfig.zero empty_fs
  = PromHTTPSDConfig.Unmarshal (H := go_lib) (H0 := url_line_encoder)
      (H1 := url_line_decoder) refresh_only promHTTP.SDConfig.zero empty_fs.
Proof.
  apply (PromHTTPSDConfig_Unmarshal_ignores_url (H := go_lib)
           (E := url_line_encoder) (D := url_line_decoder)).
  - apply insert_non_empty.
  - apply map_non_empty_singleton.
  - unfold refresh_and_url, refresh_only; cbn.
    rewrite delete_insert_eq. by rewrite !delete_singleton_ne.
Defined.

(** ** PromConfig.Validate as a whole *)

Lemma run_checks_none `{GoLib} (files : string → option Errno) (checks : list FileCheck) :
  (run_checks files checks).2 = None ↔ Forall (passes files) checks.
Proof.
  split; [|intros Hpass; by rewrite run_checks_pass].
  induction checks as [|[f path] checks IH]; cbn; [constructor|].
  destruct (String.eqb_spec path "") as [->|Hne].
  - intros Hnone. constructor; [by left | by apply IH].
  - destruct (files path) as [errno|] eqn:Hfile; cbn; [done|].
    destruct (run_checks files checks) as [cs r]; cbn in *.
    intros Hnone. constructor; [by right | by apply IH].
Qed.

(** The calls of a run of checks are the first ones of the calls of all
    the checks. *)
Lemma run_checks_calls `{GoLib} (files : string → option Errno) (checks : list FileCheck) :
  ∃ rest, stat_calls checks = (run_checks files checks).1 ++ rest.
Proof.
  induction checks as [|[f path] checks [rest IH]]; cbn; [by exists []|].
  destruct (String.eqb path ""); [by exists rest|].
  destruct (files path) as [errno|]; cbn; [by eexists|].
  destruct (run_checks files checks) as [cs r]; cbn in *.
  exists rest. by rewrite IH.
Qed.

Lemma stat_calls_named (checks : list FileCheck) (c : Call) :
  c ∈ stat_calls checks →
  ∃ f path, c = os_Stat_call path ∧ path ≠ "" ∧ (f, path) ∈ checks.
Proof.
  induction checks as [|[f path] checks IH]; cbn; [by intros ?%elem_of_nil|].
  destruct (String.eqb_spec path "") as [->|Hne].
  - intros (f' & path' & ? & ? & ?)%IH. exists f', path'. by repeat split; [..|right].
  - intros [->|Hin]%elem_of_cons.
    + exists f, path. by repeat split; [..|left].
    + apply IH in Hin as (f' & path' & ? & ? & ?). exists f', path'.
      by repeat split; [..|right].
Qed.

Lemma stat_calls_length (checks : list FileCheck) :
  (length (stat_calls checks) ≤ length checks)%nat.
Proof.
  induction checks as [|[f path] checks IH]; cbn; [done|].
  destruct (String.eqb path ""); cbn; lia.
Qed.

(** X3: PromConfig.Validate accepts a configuration exactly when none of
    the five unsupported features is in use and every file that a job or a
    Kubernetes discovery entry names (credentials file, certificate, key) is
    either not configured or can be stat-ed. *)
Theorem PromConfig_Validate_accepts `{GoLib} (cfg : PromConfig.t) (w : World) :
  result (PromConfig.Validate cfg w) = None ↔
  (∀ label, ¬ violated cfg label) ∧ Forall (passes (fs w)) (file_checks cfg).
Proof.
  rewrite PromConfig_Validate_validation. unfold result, validation. cbn [fst snd].
  destruct (in_use (features cfg)) eqn:Euse.
  - split; [done|]. intros [Hnone _].
    apply violated_features in Euse as [label Hv]. by destruct (Hnone label).
  - rewrite run_checks_none. split; [|by intros [_ ?]].
    intros Hpass. split; [|done]. intros label Hv.
    assert (in_use (features cfg) = true) by (apply violated_features; eauto).
    congruence.
Qed.

(** X4: the only calls of PromConfig.Validate are calls of os.Stat, each for
    a path that is not empty and that a file check of the configuration
    names; they are the first ones of the calls that validation makes when
    every file is there, so there are at most as many as file checks. *)
Theorem PromConfig_Validate_calls `{GoLib} (cfg : PromConfig.t) (w : World) :
  ∃ made rest,
    calls (world (PromConfig.Validate cfg w)) = calls w ++ made ∧
    stat_calls (file_checks cfg) = made ++ rest ∧
    (∀ c, c ∈ made →
       ∃ f path, c = os_Stat_call path ∧ path ≠ "" ∧ (f, path) ∈ file_checks cfg) ∧
    (length made ≤ length (file_checks cfg))%nat.
Proof.
  rewrite PromConfig_Validate_validation. unfold world, validation. cbn [fst snd].
  assert (Hprefix : ∀ made rest, stat_calls (file_checks cfg) = made ++ rest →
    (∀ c, c ∈ made →
       ∃ f path, c = os_Stat_call path ∧ path ≠ "" ∧ (f, path) ∈ file_checks cfg) ∧
    (length made ≤ length (file_checks cfg))%nat).
  { intros made rest Hsplit. split.
    - intros c Hc. apply stat_calls_named. rewrite Hsplit. apply elem_of_app. by left.
    - pose proof (stat_calls_length (file_checks cfg)) as Hlen.
      rewrite Hsplit, length_app in Hlen. lia. }
  destruct (in_use (features cfg)).
  - exists [], (stat_calls (file_checks cfg)). cbn. rewrite app_nil_r.
    split; [done|]. split; [done|]. by apply (Hprefix [] (stat_calls (file_checks cfg))).
  - destruct (run_checks_calls (fs w) (file_checks cfg)) as [rest Hrest].
    exists (run_checks (fs w) (file_checks cfg)).1, rest.
    split; [done|]. split; [done|]. by apply (Hprefix _ rest).
Qed.

(** X5: validation of a list of jobs that is made of two lists comes to the
    validation of the first list and, if that passes, the validation of the
    second one in the world the first has left: the error is the first error,
    and the calls follow each other. *)
Theorem PromConfig_Validate_app `{GoLib} (cfg : PromConfig.t)
    (scs1 scs2 : list promconfig.ScrapeConfig.t) (w : World) :
  let whole := PromConfig.Validate (with_jobs cfg (scs1 ++ scs2)) w in
  let first := PromConfig.Validate (with_jobs cfg scs1) w in
  let second := PromConfig.Validate (with_jobs cfg scs2) (world first) in
  match result first with
  | Some e => result whole = Some e ∧ world whole = world first
  | None => result whole = result second ∧ world whole = world second
  end.
Proof.
  cbn zeta. rewrite !PromConfig_Validate_validation.
  unfold result, world, validation. cbn [fst snd].
  change (features (with_jobs cfg (scs1 ++ scs2))) with (features cfg).
  change (features (with_jobs cfg scs1)) with (features cfg).
  change (features (with_jobs cfg scs2)) with (features cfg).
  destruct (in_use (features cfg)); cbn [fst snd]; [done|].
  unfold file_checks; cbn [with_jobs promconfig.Config.ScrapeConfigs].
  rewrite flat_map_app, run_checks_app.
  destruct (run_checks (fs w) (flat_map job_checks scs1)) as [cs [e|]]; cbn [fst snd];
    [done|].
  by rewrite after_after.
Qed.

(** The labels collected for [cfg] are decided by which features are in use. *)
Lemma features_violated (cfg1 cfg2 : PromConfig.t) :
  (∀ label, violated cfg1 label ↔ violated cfg2 label) → features cfg1 = features cfg2.
Proof.
  intros Hsame. unfold features.
  assert (Hbool : ∀ b1 b2 : bool, (b1 = true ↔ b2 = true) → b1 = b2).
  { intros [] []; intuition congruence. }
  f_equal; apply Hbool; rewrite !in_use_spec.
  - specialize (Hsame "remote_write"). unfold violated in Hsame.
    split; intros Hin.
    + destruct (proj1 Hsame) as [[_ ?]|[[? _]|[[? _]|[[? _]|[? _]]]]]; [by left|done..].
    + destruct (proj2 Hsame) as [[_ ?]|[[? _]|[[? _]|[[? _]|[? _]]]]]; [by left|done..].
  - specialize (Hsame "remote_read"). unfold violated in Hsame.
    split; intros Hin.
    + destruct (proj1 Hsame) as [[? _]|[[_ ?]|[[? _]|[[? _]|[? _]]]]]; [by right; left|done..].
    + destruct (proj2 Hsame) as [[? _]|[[_ ?]|[[? _]|[[? _]|[? _]]]]]; [by right; left|done..].
  - specialize (Hsame "rule_files"). unfold violated in Hsame.
    split; intros Hin.
    + destruct (proj1 Hsame) as [[? _]|[[? _]|[[_ ?]|[[? _]|[? _]]]]];
        [by right; right; left|done..].
    + destruct (proj2 Hsame) as [[? _]|[[? _]|[[_ ?]|[[? _]|[? _]]]]];
        [by right; right; left|done..].
  - specialize (Hsame "alert_config.relabel_configs"). unfold violated in Hsame.
    split; intros Hin.
    + destruct (proj1 Hsame) as [[? _]|[[? _]|[[? _]|[[_ ?]|[? _]]]]];
        [by right; right; right; left|done..].
    + destruct (proj2 Hsame) as [[? _]|[[? _]|[[? _]|[[_ ?]|[? _]]]]];
        [by right; right; right; left|done..].
  - specialize (Hsame "alert_config.alertmanagers"). unfold violated in Hsame.
    split; intros Hin.
    + destruct (proj1 Hsame) as [[? _]|[[? _]|[[? _]|[[? _]|[_ ?]]]]];
        [by right; right; right; right|done..].
    + destruct (proj2 Hsame) as [[? _]|[[? _]|[[? _]|[[? _]|[_ ?]]]]];
        [by right; right; right; right|done..].
Qed.

(** X6: PromConfig.Validate depends on the configuration only through which
    of the five features are in use and through the list of its file checks:
    two configurations that agree on both give the same result and make the
    same calls, whatever else they hold (names of jobs, CA files,
    authorization types and inline credentials, discovery entries that are
    not of the Kubernetes kind, the content of the remote-write entries). *)
Theorem PromConfig_Validate_depends `{GoLib} (cfg1 cfg2 : PromConfig.t) (w : World) :
  (∀ label, violated cfg1 label ↔ violated cfg2 label) →
  file_checks cfg1 = file_checks cfg2 →
  result (PromConfig.Validate cfg1 w) = result (PromConfig.Validate cfg2 w) ∧
  world (PromConfig.Validate cfg1 w) = world (PromConfig.Validate cfg2 w).
Proof.
  intros Hfeatures%features_violated Hfiles.
  rewrite !PromConfig_Validate_validation. unfold result, world, validation.
  cbn [fst snd]. by rewrite Hfeatures, Hfiles.
Qed.

Lemma PromConfig_Validate_depends_witness :
  result (PromConfig.Validate (H := go_lib) (token_job "job-a") empty_fs)
  = result (PromConfig.Validate (H := go_lib) token_job_with_ca empty_fs).
Proof.
  refine (proj1 (PromConfig_Validate_depends (H := go_lib) (token_job "job-a")
                   token_job_with_ca empty_fs _ _)).
  - intros label. unfold violated; cbn. tauto.
  - reflexivity.
Defined.

(** X7: an error of PromConfig.Validate is of one of two kinds, which
    errors.Unwrap tells apart.  The feature error wraps nothing, lists at
    least one label, and comes without any call.  The other kind wraps the
    *PathError of an os.Stat call for a path that a file check of the
    configuration names and that the filesystem refuses. *)
Theorem PromConfig_Validate_error_kinds `{GoLib} (cfg : PromConfig.t) (w : World)
    (e : error) :
  result (PromConfig.Validate cfg w) = Some e →
  (Unwrap e = None ∧
   (∃ labels, labels ≠ [] ∧ Error e = unsupported_text labels ∧
              ∀ label, label ∈ labels → violated cfg label) ∧
   world (PromConfig.Validate cfg w) = w) ∨
  (∃ f path errno,
     Unwrap e = Some (PathError "stat" path errno) ∧
     (f, path) ∈ file_checks cfg ∧ fs w path = Some errno ∧
     os_Stat_call path ∈ calls (world (PromConfig.Validate cfg w))).
Proof.
  rewrite PromConfig_Validate_validation. unfold result, world, validation.
  cbn [fst snd].
  destruct (in_use (features cfg)) eqn:Euse; cbn [fst snd].
  - intros [= <-]. left. split; [done|]. split; [|by rewrite after_nil].
    exists (sort.Strings (features cfg)). split; [|split; [done|]].
    + intros Hnil. destruct (sort_Strings_sorted (features cfg)) as [_ Hperm].
      rewrite Hnil in Hperm. apply Permutation_nil_l in Hperm.
      by destruct (features cfg).
    + intros label Hin.
      destruct (sort_Strings_sorted (features cfg)) as [_ Hperm].
      rewrite Hperm in Hin. revert Hin. unfold features, violated, collected.
      rewrite !elem_of_app, <- !in_use_spec.
      repeat match goal with |- context [in_use ?l] =>
               destruct (in_use l); rewrite ?elem_of_nil, ?list_elem_of_singleton
             end; naive_solver.
  - intros Herr. right.
    assert (Hlast : ∀ files checks e,
      (run_checks files checks).2 = Some e →
      ∃ f path errno, e = missing_file f path errno ∧ (f, path) ∈ checks ∧
        files path = Some errno ∧ os_Stat_call path ∈ (run_checks files checks).1).
    { clear. intros files checks e. induction checks as [|[f path] checks IH]; cbn; [done|].
      destruct (String.eqb_spec path "") as [->|Hne].
      - intros (f' & path' & errno & ? & ? & ? & ?)%IH. exists f', path', errno.
        split; [done|]. split; [by right|]. by split.
      - destruct (files path) as [errno|] eqn:Hfile; cbn.
        + intros [= <-]. exists f, path, errno.
          split; [done|]. split; [by left|]. split; [done | by left].
        + destruct (run_checks files checks) as [cs r]; cbn in *.
          intros (f' & path' & errno & ? & ? & ? & ?)%IH. exists f', path', errno.
          split; [done|]. split; [by right|]. split; [done | by right]. }
    apply Hlast in Herr as (f & path & errno & -> & Hin & Hfile & Hcall).
    exists f, path, errno. split; [done|]. split; [done|]. split; [done|].
    cbn. apply elem_of_app. by right.
Qed.

Lemma PromConfig_Validate_error_kinds_witness :
  ∃ f path errno,
    Unwrap (missing_file (H := go_lib) credentials_file "/secrets/token" ENOENT)
      = Some (PathError "stat" path errno) ∧
    (f, path) ∈ file_checks (token_job "job-a").
Proof.
  destruct (PromConfig_Validate_error_kinds (H := go_lib) (token_job "job-a") empty_fs
              (missing_file (H := go_lib) credentials_file "/secrets/token" ENOENT)
              eq_refl) as [(Hnone & _)|(f & path & errno & Hwrap & Hin & _)].
  - discriminate Hnone.
  - by exists f, path, errno.
Defined.

(** * Properties of the resource builder *)

Lemma set_attribute_eq (a : Attribute) (val : string) (rb : ResourceBuilder.t)
    (h : pcommon.Resources) :
  set_attribute a val rb h =
    if attribute_enabled (ResourceBuilder.config rb) a
    then h' ← pcommon.Attributes_PutStr (ResourceBuilder.res rb) (attribute_key a) val h;
         Some (rb, h')
    else Some (rb, h).
Proof. by destruct a. Qed.

Lemma attribute_key_inj (a b : Attribute) : attribute_key a = attribute_key b → a = b.
Proof. by destruct a, b. Qed.

Lemma built_by_insert (rac : ResourceAttributesConfig.t) (a : Attribute) (val : string)
    (attrs : gmap string pcommon.Value) :
  attribute_enabled rac a = true → built_by rac attrs →
  built_by rac (<[attribute_key a := pcommon.ValueStr val]> attrs).
Proof.
  intros Hon Hbuilt k v [[<- <-]|[_ Hk]]%lookup_insert_Some; [by exists a, val|].
  by apply Hbuilt.
Qed.

Lemma step_evolves (op : Operation) (rb : ResourceBuilder.t) (h : pcommon.Resources) :
  is_Some (h !! ResourceBuilder.res rb) →
  ∃ emitted rb' h', step op rb h = Some (emitted, rb', h') ∧ evolves rb h emitted rb' h'.
Proof.
  intros [attrs Hattrs]. destruct op as [a val|]; cbn.
  - rewrite set_attribute_eq.
    destruct (attribute_enabled (ResourceBuilder.config rb) a) eqn:Hon; cbn.
    + unfold pcommon.Attributes_PutStr. rewrite Hattrs. cbn.
      eexists [], rb, _. split; [done|]. split.
      * done.
      * rewrite lookup_insert_eq. by eexists.
      * intros r Hr _. by rewrite lookup_insert_ne.
      * by intros r ?%elem_of_nil.
      * constructor.
      * rewrite dom_insert_L. set_solver.
      * by left.
      * intros attrs0 Hattrs0 Hbuilt r ->%list_elem_of_singleton.
        rewrite lookup_insert_eq. eexists. split; [done|].
        apply built_by_insert; [done|]. by simplify_eq.
    + eexists [], rb, h. split; [done|]. split; try done.
      * by intros r ?%elem_of_nil.
      * constructor.
      * by left.
      * intros attrs0 Hattrs0 Hbuilt r ->%list_elem_of_singleton. eauto.
  - unfold ResourceBuilder.Emit, pcommon.NewResource. cbn.
    pose proof (is_fresh (dom h)) as Hfresh.
    set (new := fresh (dom h)) in *.
    assert (Hin : ResourceBuilder.res rb ∈ dom h) by (apply elem_of_dom; eauto).
    assert (Hne : ResourceBuilder.res rb ≠ new) by (by intros Heq; rewrite Heq in Hin).
    eexists [_], _, _. split; [done|]. split; cbn.
    + done.
    + rewrite lookup_insert_eq. by eexists.
    + intros r Hr Hr'. rewrite lookup_insert_ne; [done|]. by intros <-.
    + intros r ->%list_elem_of_singleton. split; [by left|]. split; [|done].
      rewrite dom_insert_L. set_solver.
    + apply NoDup_singleton.
    + rewrite dom_insert_L. set_solver.
    + by right.
    + intros attrs0 Hattrs0 Hbuilt r [->|Hr]%elem_of_cons.
      * rewrite lookup_insert_eq. eexists. split; [done|]. by intros k v ?.
      * apply list_elem_of_singleton in Hr as ->.
        rewrite lookup_insert_ne; [|done]. eauto.
Qed.

Lemma evolves_trans (rb rb1 rb2 : ResourceBuilder.t) (h h1 h2 : pcommon.Resources)
    (emitted1 emitted2 : list pcommon.Resource) :
  is_Some (h !! ResourceBuilder.res rb) →
  evolves rb h emitted1 rb1 h1 → evolves rb1 h1 emitted2 rb2 h2 →
  evolves rb h (emitted1 ++ emitted2) rb2 h2.
Proof.
  intros Hcur%elem_of_dom [Hc1 Hcur1 Hfr1 Hem1 Hnd1 Hdom1 Hres1 Hb1]
    [Hc2 Hcur2 Hfr2 Hem2 Hnd2 Hdom2 Hres2 Hb2].
  assert (Hres1' : ∀ r, r ∈ dom h → r ≠ ResourceBuilder.res rb →
                        r ≠ ResourceBuilder.res rb1).
  { intros r Hr Hne ->. by destruct Hres1. }
  split.
  - congruence.
  - done.
  - intros r Hne Hr. rewrite Hfr2; [by apply Hfr1| by apply Hres1' | set_solver].
  - intros r [Hr|Hr]%elem_of_app.
    + destruct (Hem1 r Hr) as (Hor & Hin & Hne). split; [done|]. split; [set_solver|].
      intros ->. destruct Hres2 as [Heq|Hnew]; [congruence | done].
    + destruct (Hem2 r Hr) as (Hor & Hin & Hne). split; [|done].
      destruct Hor as [->|Hnew]; [|right; set_solver].
      destruct Hres1 as [->|?]; [by left | by right].
  - apply NoDup_app. split; [done|]. split; [|done].
    intros r Hr1 Hr2. destruct (Hem1 r Hr1) as (_ & Hin & Hne).
    by destruct (Hem2 r Hr2) as ([->|Hnew] & _).
  - set_solver.
  - destruct Hres2 as [->|Hnew]; [done|]. right. set_solver.
  - intros attrs0 Hattrs0 Hbuilt r Hr.
    destruct (Hb1 attrs0 Hattrs0 Hbuilt (ResourceBuilder.res rb1)) as (attrs1 & Hattrs1 & Hbuilt1);
      [by left|].
    rewrite <- Hc1 in Hbuilt1.
    apply elem_of_cons in Hr as [->|[Hr|Hr]%elem_of_app].
    + destruct (Hb2 attrs1 Hattrs1 Hbuilt1 (ResourceBuilder.res rb2)) as (attrs & ? & ?);
        [by left|]. exists attrs. by rewrite <- Hc1.
    + destruct (Hem1 r Hr) as (_ & Hin & Hne).
      destruct (Hb1 attrs0 Hattrs0 Hbuilt r) as (attrs & ? & ?); [by right|].
      exists attrs. by rewrite Hfr2.
    + destruct (Hb2 attrs1 Hattrs1 Hbuilt1 r) as (attrs & ? & ?); [by right|].
      exists attrs. by rewrite <- Hc1.
Qed.

Lemma evolves_refl (rb : ResourceBuilder.t) (h : pcommon.Resources) :
  is_Some (h !! ResourceBuilder.res rb) → evolves rb h [] rb h.
Proof.
  intros Hcur. split; try done.
  - by intros r ?%elem_of_nil.
  - constructor.
  - by left.
  - intros attrs0 Hattrs0 Hbuilt r ->%list_elem_of_singleton. eauto.
Qed.

Lemma run_evolves (ops : list Operation) (rb : ResourceBuilder.t) (h : pcommon.Resources) :
  is_Some (h !! ResourceBuilder.res rb) →
  ∃ emitted rb' h', run ops rb h = Some (emitted, rb', h') ∧ evolves rb h emitted rb' h'.
Proof.
  revert rb h. induction ops as [|op ops IH]; intros rb h Hcur; cbn.
  - eexists [], rb, h. split; [done|]. by apply evolves_refl.
  - destruct (step_evolves op rb h Hcur) as (em1 & rb1 & h1 & -> & Hev1). cbn.
    destruct (IH rb1 h1 (evolves_current _ _ _ _ _ Hev1)) as (em2 & rb2 & h2 & -> & Hev2).
    cbn. eexists _, _, _. split; [done|]. by eapply evolves_trans.
Qed.

Lemma run_app (ops1 ops2 : list Operation) (rb : ResourceBuilder.t) (h : pcommon.Resources) :
  run (ops1 ++ ops2) rb h =
    '(emitted1, rb1, h1) ← run ops1 rb h;
    '(emitted2, rb2, h2) ← run ops2 rb1 h1;
    Some (emitted1 ++ emitted2, rb2, h2).
Proof.
  revert rb h. induction ops1 as [|op ops1 IH]; intros rb h; cbn.
  - by destruct (run ops2 rb h) as [[[em2 rb2] h2]|].
  - destruct (step op rb h) as [[[em1 rb1] h1]|]; cbn; [|done].
    rewrite IH. destruct (run ops1 rb1 h1) as [[[em rb'] h']|]; cbn; [|done].
    destruct (run ops2 rb' h') as [[[em2 rb2] h2]|]; cbn; [|done].
    by rewrite app_assoc.
Qed.

Lemma values_of_cons (a a1 : Attribute) (v1 : string) (sets : list (Attribute * string)) :
  values_of a ((a1, v1) :: sets) =
    if decide (a1 = a) then v1 :: values_of a sets else values_of a sets.
Proof. unfold values_of. rewrite filter_cons. cbn. by destruct (decide (a1 = a)). Qed.

#[local] Arguments values_of : simpl never.

(** What a sequence of setters leaves in the resource of the builder. *)
Lemma run_sets (sets : list (Attribute * string)) (rb : ResourceBuilder.t)
    (h : pcommon.Resources) (attrs0 : gmap string pcommon.Value) :
  h !! ResourceBuilder.res rb = Some attrs0 →
  ∃ attrs,
    run ((λ s, set_op s.1 s.2) <$> sets) rb h
      = Some ([], rb, <[ResourceBuilder.res rb := attrs]> h) ∧
    (∀ a, attrs !! attribute_key a =
            if attribute_enabled (ResourceBuilder.config rb) a
            then match last (values_of a sets) with
                 | Some v => Some (pcommon.ValueStr v)
                 | None => attrs0 !! attribute_key a
                 end
            else attrs0 !! attribute_key a) ∧
    (∀ k, (∀ a, k ≠ attribute_key a) → attrs !! k = attrs0 !! k).
Proof.
  revert h attrs0. induction sets as [|[a1 v1] sets IH]; intros h attrs0 Hcur; cbn.
  - exists attrs0. rewrite insert_id by done. split; [done|]. split; [|done].
    intros a. by destruct (attribute_enabled _ a).
  - rewrite set_attribute_eq.
    destruct (attribute_enabled (ResourceBuilder.config rb) a1) eqn:Hon1; cbn.
    + unfold pcommon.Attributes_PutStr. rewrite Hcur. cbn.
      destruct (IH (<[ResourceBuilder.res rb := <[attribute_key a1 := pcommon.ValueStr v1]> attrs0]> h)
                  (<[attribute_key a1 := pcommon.ValueStr v1]> attrs0))
        as (attrs & -> & Hkeys & Hother); [apply lookup_insert_eq|].
      cbn. exists attrs. rewrite insert_insert_eq. split; [done|]. split.
      * intros a. rewrite Hkeys, values_of_cons.
        destruct (attribute_enabled _ a) eqn:Hon.
        -- destruct (decide (a1 = a)) as [->|Hne].
           ++ rewrite last_cons, lookup_insert_eq. by destruct (last _).
           ++ rewrite lookup_insert_ne; [done|]. by intros ?%attribute_key_inj.
        -- rewrite lookup_insert_ne; [done|]. intros ?%attribute_key_inj. congruence.
      * intros k Hk. rewrite Hother by done. by rewrite lookup_insert_ne.
    + destruct (IH h attrs0 Hcur) as (attrs & -> & Hkeys & Hother).
      cbn. exists attrs. split; [done|]. split; [|done].
      intros a. rewrite Hkeys, values_of_cons.
      destruct (decide (a1 = a)) as [->|Hne]; [|done]. by rewrite Hon1.
Qed.

(** X8: a builder made by NewResourceBuilder goes through any sequence of
    calls of its setters and of Emit without a panic, and keeps its settings.
    The resources that were there before the builder are left as they are.
    Every resource that Emit returns is a new one, and it holds nothing but
    attributes of the builder that are enabled, with strings for values: an
    attribute that is disabled never gets into a resource. *)
Theorem ResourceBuilder_run (rac : ResourceAttributesConfig.t) (h : pcommon.Resources)
    (ops : list Operation) :
  let rb := (NewResourceBuilder rac h).1 in
  let h0 := (NewResourceBuilder rac h).2 in
  ∃ emitted rb' h',
    run ops rb h0 = Some (emitted, rb', h') ∧
    ResourceBuilder.config rb' = rac ∧
    (∀ r, r ∈ dom h → h' !! r = h !! r) ∧
    (∀ r, r ∈ emitted →
       (r ∉ dom h) ∧ ∃ attrs, h' !! r = Some attrs ∧ built_by rac attrs).
Proof.
  unfold NewResourceBuilder, pcommon.NewResource. cbn.
  pose proof (is_fresh (dom h)) as Hfresh. set (new := fresh (dom h)) in *.
  set (rb := ResourceBuilder.mk rac new).
  assert (Hcur : <[new := ∅]> h !! ResourceBuilder.res rb = Some ∅)
    by apply lookup_insert_eq.
  destruct (run_evolves ops rb (<[new := ∅]> h)) as (emitted & rb' & h' & Hrun & Hev);
    [by eexists|].
  destruct Hev as [Hc _ Hfr Hem _ _ _ Hb].
  exists emitted, rb', h'. split; [done|]. split; [done|]. split.
  - intros r Hr. assert (r ≠ new) by (by intros ->).
    rewrite Hfr; [by rewrite lookup_insert_ne| done |].
    rewrite dom_insert_L. set_solver.
  - intros r Hr. split.
    + destruct (Hem r Hr) as ([->|Hnew] & _); [done|].
      rewrite dom_insert_L in Hnew. set_solver.
    + apply (Hb ∅ Hcur); [by intros k v ?|by right].
Qed.

(** X9: when the resource of the builder has no attribute yet (as after
    NewResourceBuilder and after Emit), a sequence of calls of setters
    followed by Emit returns that resource, and its attributes are these:
    each enabled attribute has the last value that was set for it, if one
    was; the disabled attributes and all the other keys are absent.  The
    builder keeps its settings and goes on with another resource, which has
    no attribute. *)
Theorem emitted_attributes (rb : ResourceBuilder.t) (h : pcommon.Resources)
    (sets : list (Attribute * string)) :
  h !! ResourceBuilder.res rb = Some ∅ →
  ∃ rb' h' attrs,
    run (((λ s, set_op s.1 s.2) <$> sets) ++ [emit_op]) rb h
      = Some ([ResourceBuilder.res rb], rb', h') ∧
    h' !! ResourceBuilder.res rb = Some attrs ∧
    (∀ a, attrs !! attribute_key a =
            if attribute_enabled (ResourceBuilder.config rb) a
            then pcommon.ValueStr <$> last (values_of a sets)
            else None) ∧
    (∀ k, (∀ a, k ≠ attribute_key a) → attrs !! k = None) ∧
    ResourceBuilder.config rb' = ResourceBuilder.config rb ∧
    ResourceBuilder.res rb' ≠ ResourceBuilder.res rb ∧
    h' !! ResourceBuilder.res rb' = Some ∅.
Proof.
  intros Hcur. destruct (run_sets sets rb h ∅ Hcur) as (attrs & Hrun & Hkeys & Hother).
  rewrite run_app, Hrun. cbn.
  unfold ResourceBuilder.Emit, pcommon.NewResource. cbn.
  set (h1 := <[ResourceBuilder.res rb := attrs]> h).
  pose proof (is_fresh (dom h1)) as Hfresh. set (new := fresh (dom h1)) in *.
  assert (Hne : new ≠ ResourceBuilder.res rb).
  { intros Heq. apply Hfresh. rewrite Heq. unfold h1. rewrite dom_insert_L. set_solver. }
  eexists _, _, attrs. split; [done|]. cbn.
  split; [by rewrite lookup_insert_ne; [apply lookup_insert_eq|]|].
  split.
  { intros a. rewrite Hkeys, lookup_empty.
    destruct (attribute_enabled _ a); [|done]. by destruct (last _). }
  split; [intros k Hk; by rewrite Hother|].
  split; [done|]. split; [done|]. apply lookup_insert_eq.
Qed.

(** X10: the resources that a builder has returned are out of its hands:
    whatever calls follow, their attributes stay as they were when they were
    returned.  The resources returned are all different from each other, and
    from the one the builder is working on. *)
Theorem emitted_resources_final (rac : ResourceAttributesConfig.t) (h : pcommon.Resources)
    (ops1 ops2 : list Operation) (emitted1 emitted2 : list pcommon.Resource)
    (rb1 rb2 : ResourceBuilder.t) (h1 h2 : pcommon.Resources) :
  run ops1 (NewResourceBuilder rac h).1 (NewResourceBuilder rac h).2
    = Some (emitted1, rb1, h1) →
  run ops2 rb1 h1 = Some (emitted2, rb2, h2) →
  (∀ r, r ∈ emitted1 → is_Some (h1 !! r) ∧ h2 !! r = h1 !! r) ∧
  NoDup (emitted1 ++ emitted2) ∧
  ResourceBuilder.res rb2 ∉ emitted1 ++ emitted2.
Proof.
  unfold NewResourceBuilder, pcommon.NewResource. cbn.
  set (new := fresh (dom h)). set (rb := ResourceBuilder.mk rac new).
  assert (Hcur : is_Some (<[new := ∅]> h !! ResourceBuilder.res rb))
    by (rewrite lookup_insert_eq; by eexists).
  intros Hrun1 Hrun2.
  destruct (run_evolves ops1 rb _ Hcur) as (? & ? & ? & Hrun1' & Hev1).
  rewrite Hrun1 in Hrun1'. injection Hrun1' as <- <- <-.
  destruct (run_evolves ops2 rb1 h1 (evolves_current _ _ _ _ _ Hev1))
    as (? & ? & ? & Hrun2' & Hev2).
  rewrite Hrun2 in Hrun2'. injection Hrun2' as <- <- <-.
  pose proof (evolves_trans _ _ _ _ _ _ _ _ Hcur Hev1 Hev2) as Hev.
  split; [|split].
  - intros r Hr. destruct (evolves_emitted _ _ _ _ _ Hev1 r Hr) as (_ & Hin & Hne).
    split; [by apply elem_of_dom|]. by apply (evolves_frame _ _ _ _ _ Hev2).
  - apply (evolves_NoDup _ _ _ _ _ Hev).
  - intros Hr. by destruct (evolves_emitted _ _ _ _ _ Hev _ Hr) as (_ & _ & ?).
Qed.


Lemma emitted_attributes_witness :
  ∃ rb' h' attrs,
    run [set_op vm_name "a"; set_op host_name "h"; set_op vm_name "b"; emit_op]
        (NewResourceBuilder all_but_host ∅).1 (NewResourceBuilder all_but_host ∅).2
      = Some ([0], rb', h') ∧
    h' !! 0 = Some attrs ∧
    attrs !! "vcenter.vm.name" = Some (pcommon.ValueStr "b") ∧
    attrs !! "vcenter.host.name" = None.
Proof.
  assert (Hcur : (NewResourceBuilder all_but_host ∅).2
                   !! ResourceBuilder.res (NewResourceBuilder all_but_host ∅).1 = Some ∅)
    by (vm_compute; reflexivity).
  destruct (emitted_attributes (NewResourceBuilder all_but_host ∅).1
              (NewResourceBuilder all_but_host ∅).2
              [(vm_name, "a"); (host_name, "h"); (vm_name, "b")] Hcur)
    as (rb' & h' & attrs & Hrun & Hattrs & Hkeys & _).
  exists rb', h', attrs. split; [exact Hrun|]. split; [exact Hattrs|].
  split; [exact (Hkeys vm_name) | exact (Hkeys host_name)].
Defined.

Lemma emitted_resources_final_witness :
  let h1 : pcommon.Resources :=
    <[1 := ∅]> {[ 0 := {[ "vcenter.vm.name" := pcommon.ValueStr "a" ]} ]} in
  let h2 : pcommon.Resources :=
    <[2 := ∅]> (<[1 := {[ "vcenter.vm.name" := pcommon.ValueStr "b" ]}]> h1) in
  (∀ r, r ∈ [0] → is_Some (h1 !! r) ∧ h2 !! r = h1 !! r) ∧
  NoDup ([0] ++ [1]) ∧
  2 ∉ [0] ++ [1].
Proof.
  intros h1 h2.
  apply (emitted_resources_final all_but_host ∅
           [set_op vm_name "a"; emit_op] [set_op vm_name "b"; emit_op]
           [0] [1] (ResourceBuilder.mk all_but_host 1) (ResourceBuilder.mk all_but_host 2)
           h1 h2); vm_compute; reflexivity.
Defined.
